(** * smbc-daily: the scraper pipeline and the README generator

    A shallow embedding of [src/scraper.py] and of the metadata parser of
    [src/update_readme.py], with the properties stated for them.

    - Python [str] is a list of Unicode code points.
    - A [dict] is a [gmap]; the four-key dictionary built by
      [extract_comic_data] is a record.
    - The HTML tree is reached through an interface whose operations may
      raise; BeautifulSoup trees are one instance of it.
    - HTTP and the file system are oracles of a [World]; the pipeline runs in
      a state-and-exception monad that logs every request and every opened
      file. A request, the parser and a write may raise an exception of any
      class; only the classes named by the [except] clauses are caught.
      Console output ([print]) is not modelled: it is taken to succeed. *)

From Stdlib Require Import String Ascii NArith.
From stdpp Require Import base option list gmap sorting.

Local Open Scope N_scope.

(** ** Python strings *)

Definition char : Type := N.
Abbreviation str := (list char).

Definition ord (a : ascii) : char := N_of_ascii a.

(** A string literal of the source. *)
Definition lit (s : string) : str := map ord (list_ascii_of_string s).
Arguments ord : simpl never.
Arguments lit : simpl never.

(** [s.startswith(p)] *)
Fixpoint startswith (s p : str) : bool :=
  match p, s with
  | [], _ => true
  | _ :: _, [] => false
  | a :: p', b :: s' => if decide (a = b) then startswith s' p' else false
  end.

(** [s.split(sep)] for a one-character separator: the segments between the
    occurrences of [sep]; never empty. *)
Fixpoint split (sep : char) (s : str) : list str :=
  match s with
  | [] => [[]]
  | c :: s' =>
      if decide (c = sep) then [] :: split sep s'
      else match split sep s' with
           | seg :: segs => (c :: seg) :: segs
           | [] => [[c]]
           end
  end.

(** [str.isspace] on one character: the code points Python treats as
    whitespace. *)
Definition isspace (c : char) : bool :=
  ((9 <=? c) && (c <=? 13)) || ((28 <=? c) && (c <=? 32))
  || (c =? 133) || (c =? 160) || (c =? 5760)
  || ((8192 <=? c) && (c <=? 8202))
  || (c =? 8232) || (c =? 8233) || (c =? 8239) || (c =? 8287) || (c =? 12288).

Fixpoint lstrip (s : str) : str :=
  match s with
  | c :: s' => if isspace c then lstrip s' else s
  | [] => []
  end.

Definition rstrip (s : str) : str := reverse (lstrip (reverse s)).

(** [s.strip()] *)
Definition strip (s : str) : str := rstrip (lstrip s).

(** ** scraper.py: constants and pure helpers *)

Definition EXPLOSM_BASE_URL : str := lit "https://www.smbc-comics.com/".

Definition INVALID_FILENAME_CHARS : list char :=
  [ord "/"; ord "\"; ord "?"; ord "%"; ord "*"; ord ":"; ord "|";
   34 (* the double quote *); ord "<"; ord ">"; ord "."].

Definition sanitize_filename (filename : str) : str :=
  filter (λ c, c ∉ INVALID_FILENAME_CHARS) filename.

(** [url.split('.')[-1]]: indexing an empty list would raise [IndexError];
    [split_nonempty] below shows that the list is never empty. *)
Definition get_file_extension (url : str) : str :=
  default [] (last (split (ord ".") url)).

(** [base_filename] as computed inline by [get_current_comic]. *)
Definition base_filename (title : str) : str :=
  let title_str := sanitize_filename title in
  if decide (title_str ≠ lit "unknown") then title_str else lit "smbc_comic".

(** ** Exceptions

    The classes that the [except] clauses of the source tell apart.
    [RequestException] is a subclass of [IOError] (that is, of [OSError]);
    [OtherException] stands for every other class, such as [ValueError] and
    its subclass [UnicodeEncodeError]. *)

Inductive exn :=
  | AttributeError | KeyError | TypeError
  | RequestException | IOError
  | OtherException.

Global Instance exn_eq_dec : EqDecision exn.
Proof. solve_decision. Defined.

(** The outcome of a computation that may raise. *)
Inductive exc (A : Type) :=
  | Return (a : A)
  | Raise (e : exn).
Arguments Return {A} a.
Arguments Raise {A} e.

Global Instance exc_ret : MRet exc := λ A a, Return a.
Global Instance exc_bind : MBind exc := λ A B f m,
  match m with Return a => f a | Raise e => Raise e end.

(** [try: body except <caught>: handler] *)
Definition try_except {A} (body : exc A) (caught : exn → bool)
    (handler : exn → exc A) : exc A :=
  match body with
  | Return a => Return a
  | Raise e => if caught e then handler e else Raise e
  end.

(** ** The HTML tree interface

    What the extractor asks of a parsed document: [find] by tag name with an
    optional [id] or [class_] filter, the attribute dictionary of a tag, and
    [get_text]. Any of them may raise. *)

Inductive attr_filter :=
  | AnyAttrs
  | WithId (v : str)
  | WithClass (v : str).

Class HtmlTree (node : Type) := {
  tag_find : node → str → attr_filter → exc (option node);
  tag_attrs : node → exc (gmap str str);
  tag_get_text : node → exc str;
}.

(** The dictionary returned by [extract_comic_data]. *)
Record ComicRecord := {
  image_url : str;
  title : str;
  date : str;
  hover_text : str;
}.

Section extractor.
Context {node : Type} `{!HtmlTree node}.

(** [tag[key]] *)
Definition tag_getitem (t : node) (key : str) : exc str :=
  a ← tag_attrs t;
  match a !! key with
  | Some v => Return v
  | None => Raise KeyError
  end.

(** [tag.get(key, dflt)] *)
Definition tag_get (t : node) (key dflt : str) : exc str :=
  a ← tag_attrs t; Return (default dflt (a !! key)).

(** Lines 83-96: title and date from the blog area. *)
Definition blog_fields (soup : node) : exc (str * str) :=
  blog_area ← tag_find soup (lit "div") (WithId (lit "blogarea"));
  match blog_area with
  | None => Return (lit "unknown", lit "unknown")
  | Some blog_area =>
      news_header ← tag_find blog_area (lit "div") (WithClass (lit "cc-newsheader"));
      title ← match news_header with
              | None => Return (lit "unknown")
              | Some news_header =>
                  title_link ← tag_find news_header (lit "a") AnyAttrs;
                  match title_link with
                  | None => Return (lit "unknown")
                  | Some title_link =>
                      text ← tag_get_text title_link; Return (strip text)
                  end
              end;
      publish_time_div ← tag_find blog_area (lit "div") (WithClass (lit "cc-publishtime"));
      date ← match publish_time_div with
             | None => Return (lit "unknown")
             | Some publish_time_div =>
                 text ← tag_get_text publish_time_div; Return (strip text)
             end;
      Return (title, date)
  end.

(** The body of the [try] block, lines 68-103. *)
Definition extract_body (soup : node) : exc (option ComicRecord) :=
  comic_div ← tag_find soup (lit "div") (WithId (lit "cc-comicbody"));
  match comic_div with
  | None => Return None
  | Some comic_div =>
      comic_img ← tag_find comic_div (lit "img") AnyAttrs;
      match comic_img with
      | None => Return None
      | Some comic_img =>
          a ← tag_attrs comic_img;
          if decide (a !! lit "src" = None) then Return None
          else
            image_url ← tag_getitem comic_img (lit "src");
            hover_text ← tag_get comic_img (lit "title") [];
            '(title, date) ← blog_fields soup;
            Return (Some {| image_url := image_url; title := title;
                            date := date; hover_text := hover_text |})
      end
  end.

(** The exceptions named by the [except] clause of [extract_comic_data]. *)
Definition structural_access_error (e : exn) : bool :=
  match e with
  | AttributeError | KeyError | TypeError => true
  | _ => false
  end.

Definition extract_comic_data (soup : node) : exc (option ComicRecord) :=
  try_except (extract_body soup) structural_access_error (λ _, Return None).
End extractor.

(** ** BeautifulSoup trees

    A tag has a name, an attribute dictionary and a list of children; a child
    is a tag, a text node or a comment ([Comment] also stands for the other
    strings that [get_text] leaves out, such as declarations). The
    [BeautifulSoup] object itself is the tag at the root. Attribute values
    are kept as the raw strings of the markup; the parser's token list of a [class] attribute is [class_tokens]
    of the raw value. *)

Inductive PageElement (T : Type) :=
  | ChildTag (t : T)
  | NavigableString (s : str)
  | Comment (s : str).
Arguments ChildTag {T} t.
Arguments NavigableString {T} s.
Arguments Comment {T} s.

#[warnings="-register-all"]
Inductive Tag := mkTag {
  name : str;
  attrs : gmap str str;
  contents : list (PageElement Tag);
}.

(** [tag.descendants] restricted to tags, in document order. *)
Fixpoint descendants (t : Tag) : list Tag :=
  match t with
  | mkTag _ _ cs =>
      cs ≫= λ e, match e with
                 | ChildTag c => c :: descendants c
                 | _ => []
                 end
  end.

(** [tag.get_text()]: the text nodes below the tag, concatenated in document
    order; comments are left out. *)
Fixpoint get_text (t : Tag) : str :=
  match t with
  | mkTag _ _ cs =>
      cs ≫= λ e, match e with
                 | ChildTag c => get_text c
                 | NavigableString s => s
                 | Comment _ => []
                 end
  end.

(** The maximal runs of non-whitespace characters of a string. *)
Fixpoint tokens_from (cur : str) (s : str) : list str :=
  match s with
  | [] => match cur with [] => [] | _ => [reverse cur] end
  | c :: s' =>
      if isspace c
      then match cur with
           | [] => tokens_from [] s'
           | _ => reverse cur :: tokens_from [] s'
           end
      else tokens_from (c :: cur) s'
  end.

Definition class_tokens (raw : str) : list str := tokens_from [] raw.

Definition attrs_match (f : attr_filter) (a : gmap str str) : Prop :=
  match f with
  | AnyAttrs => True
  | WithId v => a !! lit "id" = Some v
  | WithClass v => v ∈ default [] (class_tokens <$> a !! lit "class")
  end.

Global Instance attrs_match_dec f a : Decision (attrs_match f a).
Proof. destruct f; simpl; apply _. Defined.

Definition tag_matches (nm : str) (f : attr_filter) (t : Tag) : Prop :=
  name t = nm ∧ attrs_match f (attrs t).

Global Instance tag_matches_dec nm f t : Decision (tag_matches nm f t).
Proof. unfold tag_matches; apply _. Defined.

(** [tag.find(nm, ...)]: the first matching descendant, if any. *)
Definition find (t : Tag) (nm : str) (f : attr_filter) : option Tag :=
  head (filter (tag_matches nm f) (descendants t)).

Global Instance bs4_tree : HtmlTree Tag := {|
  tag_find t nm f := Return (find t nm f);
  tag_attrs t := Return (attrs t);
  tag_get_text t := Return (get_text t);
|}.

(** ** The world outside: HTTP, the parser and the file system *)

Record Response := {
  status_code : N;
  text : str;
  content : list Byte.byte;
}.

(** What happens when a file is opened for writing and written in chunks:
    everything succeeds, [open] raises, or an exception is raised after the
    first [n] chunks reached the file. The exception is of any class: an
    [IOError] of the disk, a [ValueError] for a path that holds a NUL
    character, a [UnicodeEncodeError] for a text that does not encode. *)
Inductive write_outcome :=
  | WriteOk
  | OpenRaises (e : exn)
  | RaisesAfter (n : nat) (e : exn).

Inductive platform := Posix | Windows.

(** [os.linesep] *)
Definition linesep (p : platform) : str :=
  match p with
  | Posix => [10]
  | Windows => [13; 10]
  end.

Record World (node : Type) := {
  (** [requests.get(url)]: the response, or the exception it raises. *)
  requests_get : str → exc Response;
  (** [BeautifulSoup(text, "html.parser")]: the tree, or the exception
      raised for a markup that the parser rejects. *)
  BeautifulSoup : str → exc node;
  io_outcome : str → write_outcome;
  os_platform : platform;
}.
Arguments requests_get {node} _ _.
Arguments BeautifulSoup {node} _ _.
Arguments io_outcome {node} _ _.
Arguments os_platform {node} _.

(** A file holds bytes, or text as it decodes from the bytes on disk. *)
Inductive file_data :=
  | Binary (b : list Byte.byte)
  | Text (s : str).

Inductive event :=
  | HttpGet (url : str)
  | FileOpen (path : str).

Record State := {
  files : gmap str file_data;
  events : list event;
}.

(** Computations that change the state and may raise. *)
Definition M (A : Type) : Type := State → exc A * State.

Global Instance M_ret : MRet M := λ A a s, (Return a, s).
Global Instance M_bind : MBind M := λ A B f m s,
  match m s with
  | (Return a, s') => f a s'
  | (Raise e, s') => (Raise e, s')
  end.

Definition raise {A} (e : exn) : M A := λ s, (Raise e, s).

Definition lift {A} (m : exc A) : M A := λ s, (m, s).

Definition try_exceptM {A} (body : M A) (caught : exn → bool)
    (handler : exn → M A) : M A := λ s,
  match body s with
  | (Return a, s') => (Return a, s')
  | (Raise e, s') => if caught e then handler e s' else (Raise e, s')
  end.

Definition log_event (e : event) : M unit := λ s,
  (Return (), {| files := files s; events := events s ++ [e] |}).

Definition store (path : str) (d : file_data) : M unit := λ s,
  (Return (), {| files := <[path := d]> (files s); events := events s |}).

(** Text written with [newline=None]: every line feed becomes [os.linesep]. *)
Definition text_encode (p : platform) (s : str) : str :=
  s ≫= λ c, if decide (c = 10) then linesep p else [c].

(** [except requests.RequestException] *)
Definition is_RequestException (e : exn) : bool :=
  match e with RequestException => true | _ => false end.

(** [except IOError]: the class and its subclasses. *)
Definition is_IOError (e : exn) : bool :=
  match e with IOError | RequestException => true | _ => false end.

(** The four [f.write] calls of lines 204-207. *)
Definition metadata_lines (comic_data : ComicRecord) : list str :=
  [ lit "Title: " ++ title comic_data ++ [10];
    lit "Date: " ++ date comic_data ++ [10];
    lit "Hover Text: " ++ hover_text comic_data ++ [10];
    lit "Image URL: " ++ image_url comic_data ++ [10] ].

Section pipeline.
Context {node : Type} `{!HtmlTree node} (w : World node).

(** [requests.get(url)] *)
Definition http_get (url : str) : M Response :=
  _ ← log_event (HttpGet url); lift (requests_get w url).

(** [response.raise_for_status()] *)
Definition raise_for_status (r : Response) : M unit :=
  if (400 <=? status_code r) && (status_code r <? 600)
  then raise RequestException else mret ().

(** [with open(path, 'wb') as handler: handler.write(data)] *)
Definition write_binary (path : str) (data : list Byte.byte) : M unit :=
  _ ← log_event (FileOpen path);
  match io_outcome w path with
  | WriteOk => store path (Binary data)
  | OpenRaises e => raise e
  | RaisesAfter n e =>
      _ ← store path (Binary (concat (take n [data]))); raise e
  end.

(** [with open(path, 'w', encoding='utf-8') as f:] followed by one
    [f.write] per chunk. *)
Definition write_text (path : str) (chunks : list str) : M unit :=
  _ ← log_event (FileOpen path);
  match io_outcome w path with
  | WriteOk => store path (Text (text_encode (os_platform w) (concat chunks)))
  | OpenRaises e => raise e
  | RaisesAfter n e =>
      _ ← store path (Text (text_encode (os_platform w) (concat (take n chunks))));
      raise e
  end.

Definition fetch_webpage (url : str) : M (option node) :=
  try_exceptM
    (response ← http_get url;
     _ ← raise_for_status response;
     soup ← lift (BeautifulSoup w (text response));
     mret (Some soup))
    is_RequestException (λ _, mret None).

Definition download_image (image_url : str) : M (option (list Byte.byte)) :=
  let image_url :=
    if startswith image_url (lit "//") then lit "https:" ++ image_url
    else image_url in
  try_exceptM
    (response ← http_get image_url;
     _ ← raise_for_status response;
     mret (Some (content response)))
    is_RequestException (λ _, mret None).

Definition save_image (image_data : list Byte.byte) (filepath : str) : M bool :=
  try_exceptM
    (_ ← write_binary filepath image_data; mret true)
    is_IOError (λ _, mret false).

Definition get_current_comic : M bool :=
  soup ← fetch_webpage EXPLOSM_BASE_URL;
  match soup with
  | None => mret false
  | Some soup =>
      comic_data ← lift (extract_comic_data soup);
      match comic_data with
      | None => mret false
      | Some comic_data =>
          let base_filename := base_filename (title comic_data) in
          image_data ← download_image (image_url comic_data);
          match image_data with
          | None => mret false
          | Some image_data =>
              let file_extension := get_file_extension (image_url comic_data) in
              let image_path := base_filename ++ lit "." ++ file_extension in
              saved ← save_image image_data image_path;
              if negb saved then mret false
              else
                let metadata_path := base_filename ++ lit "_metadata.txt" in
                try_exceptM
                  (_ ← write_text metadata_path (metadata_lines comic_data);
                   mret true)
                  is_IOError (λ _, mret false)
          end
      end
  end.
End pipeline.

(** ** update_readme.py: reading the metadata file back *)

(** Text read with [newline=None]: a carriage return, with the line feed
    that may follow it, reads as one line feed. [after_cr] tells that the
    previous character was a carriage return. *)
Fixpoint universal_newlines (after_cr : bool) (s : str) : str :=
  match s with
  | [] => []
  | c :: s' =>
      if decide (c = 13) then 10 :: universal_newlines true s'
      else if decide (c = 10) then
        if after_cr then universal_newlines false s'
        else 10 :: universal_newlines false s'
      else c :: universal_newlines false s'
  end.

(** [for line in f]: the lines of the text, each with its line feed. *)
Fixpoint readlines (s : str) : list str :=
  match s with
  | [] => []
  | c :: s' =>
      if decide (c = 10) then [c] :: readlines s'
      else match readlines s' with
           | line :: lines => (c :: line) :: lines
           | [] => [[c]]
           end
  end.

(** [line.split(sep, 1)] for a line that holds [sep]; [None] for one that
    does not (the source tests [':' in line] first). *)
Fixpoint split_once (sep : char) (line : str) : option (str * str) :=
  match line with
  | [] => None
  | c :: line' =>
      if decide (c = sep) then Some ([], line')
      else '(key, value) ← split_once sep line'; Some (c :: key, value)
  end.

(** The loop of lines 47-50 of [get_most_recent_comic]. *)
Definition parse_metadata (lines : list str) : gmap str str :=
  foldl (λ metadata line,
           match split_once (ord ":") line with
           | Some (key, value) => <[strip key := strip value]> metadata
           | None => metadata
           end) ∅ lines.

(** Lines 44-50: the metadata of the file at [metadata_file], [{}] when
    there is no such file. The statements below read files written as text
    and absent files only; a file of arbitrary bytes, which need not decode
    as UTF-8, is outside of them. *)
Definition read_metadata (fs : gmap str file_data) (metadata_file : str)
    : gmap str str :=
  match fs !! metadata_file with
  | Some (Text s) => parse_metadata (readlines (universal_newlines false s))
  | _ => ∅
  end.

(** Lines 76-98 of [update_readme]: the text written to README.md for the
    tuple returned by [get_most_recent_comic]. *)
Definition readme_content (date title image_path : str)
    (metadata : gmap str str) : str :=
  let publish_date : str := default date (metadata !! lit "Date") in
  let hover_text : str := default [] (metadata !! lit "Hover Text") in
  let readme_content :=
    lit "# SMBC Daily" ++ [10; 10] ++
    lit "#### " ++ publish_date ++ [10; 10] ++
    lit "## " ++ title ++ [10; 10] ++
    lit "![" ++ title ++ lit "](" ++ image_path ++ lit ")" ++ [10; 10] in
  let readme_content :=
    match hover_text with
    | [] => readme_content
    | _ :: _ => readme_content ++ lit "**Hover Text:** " ++ hover_text ++ [10; 10]
    end in
  readme_content ++
  lit "---" ++ [10; 10] ++
  lit "*This README is automatically updated with the latest SMBC comic.*" ++ [10].

(** ** Dates and paths: [setup_daily_directory] and the choice of the most
    recent directory *)

(** Python's order on strings: code point by code point, a proper prefix
    first. *)
Fixpoint str_compare (a b : str) : comparison :=
  match a, b with
  | [], [] => Eq
  | [], _ :: _ => Lt
  | _ :: _, [] => Gt
  | x :: a', y :: b' =>
      match x ?= y with
      | Eq => str_compare a' b'
      | c => c
      end
  end.

(** [a <= b] on strings. *)
Definition str_le (a b : str) : Prop := str_compare a b ≠ Gt.

(** [sorted(names, reverse=True)]: the names in descending order. The order
    on strings is total and antisymmetric, so the sorted list does not
    depend on the sorting algorithm. *)
Definition sorted_reverse (names : list str) : list str :=
  merge_sort (λ a b, str_le b a) names.

(** Lines 19-28 of [get_most_recent_comic]: the name of the most recent date
    directory, for the listing of the data directory and the test
    [os.path.isdir] on its entries; [None] when there is no directory. *)
Definition most_recent_date (isdir : str → bool) (listing : list str)
    : option str :=
  let date_dirs := sorted_reverse (filter (λ d, isdir d = true) listing) in
  head date_dirs.

(** A calendar day, as [datetime.datetime.now()] gives it. *)
Record Day := {
  year : N;
  month : N;
  day : N;
}.

Definition digit (n : N) : char := 48 + n mod 10.

(** The last [width] decimal digits of [n]: what the formats %Y, %m and %d
    print for a four-digit year and for a month or a day. *)
Fixpoint zero_padded (width : nat) (n : N) : str :=
  match width with
  | O => []
  | S width' => zero_padded width' (n / 10) ++ [digit n]
  end.

(** [now.strftime("%Y-%m-%d")], for the years 1000 to 9999. *)
Definition strftime_Ymd (now : Day) : str :=
  zero_padded 4 (year now) ++ lit "-" ++
  zero_padded 2 (month now) ++ lit "-" ++
  zero_padded 2 (day now).

Fixpoint drop_to_sep (s : str) : str :=
  match s with
  | [] => []
  | c :: s' => if decide (c = ord "/") then s else drop_to_sep s'
  end.

Fixpoint drop_seps (s : str) : str :=
  match s with
  | [] => []
  | c :: s' => if decide (c = ord "/") then drop_seps s' else s
  end.

(** [os.path.dirname] of posixpath: the part up to the last slash, without
    its trailing slashes unless it holds nothing else. *)
Definition dirname (p : str) : str :=
  let head := reverse (drop_to_sep (reverse p)) in
  if decide (head ≠ [] ∧ head ≠ replicate (length head) (ord "/"))
  then reverse (drop_seps (reverse head))
  else head.

(** [os.path.join(a, *p)] of posixpath. *)
Definition path_join (a : str) (p : list str) : str :=
  foldl (λ path b,
           if startswith b (lit "/") then b
           else if decide (path = [] ∨ last path = Some (ord "/"))
                then path ++ b
                else path ++ lit "/" ++ b) a p.

(** Lines 11-12 of [get_most_recent_comic]: the directory it scans, for the
    absolute path of the script. *)
Definition data_directory (script : str) : str :=
  let project_root := dirname (dirname script) in
  path_join project_root [lit "data"].

(** Lines 226-230 of [setup_daily_directory]: the path it creates and
    returns, for the absolute path of the script and the current day. *)
Definition daily_directory (script : str) (now : Day) : str :=
  let date := strftime_Ymd now in
  let project_root := dirname (dirname script) in
  path_join project_root [lit "archive"; date].

(** ** Sample documents *)

Definition attr (key value : string) : str * str := (lit key, lit value).

Definition element (nm : string) (a : list (str * str))
    (cs : list (PageElement Tag)) : Tag :=
  mkTag (lit nm) (list_to_map a) cs.

(** A page whose comic image has an empty [src]. *)
Definition empty_src_page : Tag :=
  element "[document]" []
    [ChildTag (element "div" [attr "id" "cc-comicbody"]
       [ChildTag (element "img" [(lit "src", []); attr "title" "funny"] [])])].

(** A page without the comic body. *)
Definition no_comic_page : Tag :=
  element "[document]" []
    [ChildTag (element "html" []
       [ChildTag (element "body" []
          [ChildTag (element "div" [attr "id" "blogarea"]
             [ChildTag (element "div" [attr "class" "cc-publishtime"]
                [NavigableString (lit "March 3rd, 2024")])])])])].

(** A page with the comic but without the blog area. *)
Definition no_blog_page : Tag :=
  element "[document]" []
    [ChildTag (element "div" [attr "id" "cc-comicbody"]
       [Comment (lit " comic ");
        ChildTag (element "img"
          [attr "src" "//cdn.example/c/today.png"; attr "title" "funny"] [])])].




(** The page of the end-to-end scenario. *)
Definition today_page : Tag :=
  element "[document]" []
    [ChildTag (element "div" [attr "id" "cc-comicbody"]
       [ChildTag (element "img"
          [attr "src" "//cdn.example/c/today.png"; attr "title" "funny"] [])]);
     ChildTag (element "div" [attr "id" "blogarea"]
       [ChildTag (element "div" [attr "class" "cc-newsheader"]
          [ChildTag (element "a" [attr "href" "/comic/today"]
             [NavigableString (lit "Today's Comic")])]);
        ChildTag (element "div" [attr "class" "cc-publishtime"]
          [NavigableString (lit "March 3rd, 2024")])])].

Definition today_record : ComicRecord :=
  {| image_url := lit "//cdn.example/c/today.png";
     title := lit "Today's Comic";
     date := lit "March 3rd, 2024";
     hover_text := lit "funny" |}.

Definition png_bytes : list Byte.byte := [Byte.x89; Byte.x50; Byte.x4e; Byte.x47].

(** A world that serves the page and the image and whose disk works. *)
Definition today_world : World Tag := {|
  requests_get url :=
    if decide (url = EXPLOSM_BASE_URL)
    then Return {| status_code := 200; text := lit "<html>"; content := [] |}
    else if decide (url = lit "https://cdn.example/c/today.png")
    then Return {| status_code := 200; text := []; content := png_bytes |}
    else Raise RequestException;
  BeautifulSoup _ := Return today_page;
  io_outcome _ := WriteOk;
  os_platform := Posix;
|}.

(** The same world with the image host answering 404. *)
Definition missing_image_world : World Tag := {|
  requests_get url :=
    if decide (url = EXPLOSM_BASE_URL)
    then Return {| status_code := 200; text := lit "<html>"; content := [] |}
    else Return {| status_code := 404; text := lit "Not Found"; content := [] |};
  BeautifulSoup _ := Return today_page;
  io_outcome _ := WriteOk;
  os_platform := Posix;
|}.

Definition initial_state : State := {| files := ∅; events := [] |}.

(** A record whose hover text starts with a space, and one whose hover
    text holds a line feed. *)
Definition spaced_record : ComicRecord :=
  {| image_url := lit "//cdn.example/c/today.png";
     title := lit "Today's Comic";
     date := lit "March 3rd, 2024";
     hover_text := lit " funny" |}.

Definition two_line_record : ComicRecord :=
  {| image_url := lit "//cdn.example/c/today.png";
     title := lit "Today's Comic";
     date := lit "March 3rd, 2024";
     hover_text := (lit "funny" ++ [10] ++ lit "Date: never") |}.

(** A page whose blog area has a publish time but no news header, and whose
    texts are surrounded by whitespace. *)
Definition headerless_page : Tag :=
  element "[document]" []
    [ChildTag (element "div" [attr "id" "cc-comicbody"]
       [ChildTag (element "img" [attr "src" "/comics/today.png"] [])]);
     ChildTag (element "div" [attr "id" "blogarea"]
       [ChildTag (element "div" [attr "class" "cc-publishtime"]
          [NavigableString ([10] ++ lit "  Posted ");
           ChildTag (element "b" [] [NavigableString (lit "March 3rd, 2024")]);
           NavigableString ([32; 10])])])].

(** The world of the end-to-end scenario with a disk that takes the image
    and then refuses every other file. *)
Definition full_disk_world : World Tag := {|
  requests_get := requests_get today_world;
  BeautifulSoup := BeautifulSoup today_world;
  io_outcome path :=
    if decide (path = lit "Today's Comic.png") then WriteOk
    else OpenRaises IOError;
  os_platform := Posix;
|}.

(** A page whose title becomes the string unknown by sanitization. *)
Definition dotted_title_page : Tag :=
  element "[document]" []
    [ChildTag (element "div" [attr "id" "cc-comicbody"]
       [ChildTag (element "img" [attr "src" "//cdn.example/c/today.png"] [])]);
     ChildTag (element "div" [attr "id" "blogarea"]
       [ChildTag (element "div" [attr "class" "cc-newsheader"]
          [ChildTag (element "a" [] [NavigableString (lit "un.known")])])])].

Definition dotted_title_record : ComicRecord :=
  {| image_url := lit "//cdn.example/c/today.png";
     title := lit "un.known";
     date := lit "unknown";
     hover_text := [] |}.

(** The world of the end-to-end scenario serving that page. *)
Definition dotted_title_world : World Tag := {|
  requests_get := requests_get today_world;
  BeautifulSoup _ := Return dotted_title_page;
  io_outcome := io_outcome today_world;
  os_platform := Posix;
|}.

(** The world of the end-to-end scenario with an image host whose name
    [requests.get] cannot parse: the exception is not a
    [RequestException]. *)
Definition bad_host_world : World Tag := {|
  requests_get url :=
    if decide (url = EXPLOSM_BASE_URL) then requests_get today_world url
    else Raise OtherException;
  BeautifulSoup := BeautifulSoup today_world;
  io_outcome := io_outcome today_world;
  os_platform := Posix;
|}.

(** The world of the end-to-end scenario with a metadata text that does not
    encode: the first [f.write] raises a [UnicodeEncodeError]. *)
Definition unencodable_world : World Tag := {|
  requests_get := requests_get today_world;
  BeautifulSoup := BeautifulSoup today_world;
  io_outcome path :=
    if decide (path = lit "Today's Comic.png") then WriteOk
    else RaisesAfter 0 OtherException;
  os_platform := Posix;
|}.

(** ** Vocabulary of the statements *)

(** No line feed and no carriage return. *)
Definition no_linebreak (s : str) : Prop := (10 ∉ s) ∧ (13 ∉ s).

(** The text of the metadata file of a record, as it is on disk. *)
Definition metadata_file_text (p : platform) (r : ComicRecord) : str :=
  text_encode p (concat (metadata_lines r)).

(** [occurs_in d t]: the tag [d] lies strictly below the tag [t]. *)
Inductive occurs_in : Tag → Tag → Prop :=
  | occurs_child c t : ChildTag c ∈ contents t → occurs_in c t
  | occurs_deeper d c t :
      ChildTag c ∈ contents t → occurs_in d c → occurs_in d t.

Definition add_event (s : State) (e : event) : State :=
  {| files := files s; events := events s ++ [e] |}.

(** The status codes for which [raise_for_status] raises. *)
Definition error_status (r : Response) : bool :=
  (400 <=? status_code r) && (status_code r <? 600).

(** The URL that [download_image] requests. *)
Definition resolved_url (image_url : str) : str :=
  if startswith image_url (lit "//") then lit "https:" ++ image_url else image_url.

(** The paths of the files opened for writing, in the order of the log. *)
Definition opened (evs : list event) : list str :=
  omap (λ e, match e with FileOpen p => Some p | HttpGet _ => None end) evs.

Definition put_file (s : State) (path : str) (d : file_data) : State :=
  {| files := <[path := d]> (files s); events := events s |}.

(** The names of the two files of a run. *)
Definition image_path (r : ComicRecord) : str :=
  base_filename (title r) ++ lit "." ++ get_file_extension (image_url r).

Definition metadata_path (r : ComicRecord) : str :=
  base_filename (title r) ++ lit "_metadata.txt".

(** What the two requests of a run deliver. *)
Definition fetched {node : Type} (w : World node) (url : str) : option node :=
  match requests_get w url with
  | Return r =>
      if error_status r then None
      else match BeautifulSoup w (text r) with
           | Return soup => Some soup
           | Raise _ => None
           end
  | Raise _ => None
  end.

Definition downloaded {node : Type} (w : World node) (image_url : str)
    : option (list Byte.byte) :=
  match requests_get w (resolved_url image_url) with
  | Return r => if error_status r then None else Some (content r)
  | Raise _ => None
  end.

(** How a [try] block around a request ends when the request raises [e]:
    [except requests.RequestException] returns [None]. *)
Definition request_failure {A : Type} (e : exn) : exc (option A) :=
  if is_RequestException e then Return None else Raise e.

(** How a [try] block around a write ends when the write raises [e]:
    [except IOError] returns [False]. *)
Definition write_failure (e : exn) : exc bool :=
  if is_IOError e then Return false else Raise e.

(** The results of [fetch_webpage] and of [download_image]. *)
Definition fetch_result {node : Type} (w : World node) (url : str)
    : exc (option node) :=
  match requests_get w url with
  | Return r =>
      if error_status r then Return None
      else match BeautifulSoup w (text r) with
           | Return soup => Return (Some soup)
           | Raise e => request_failure e
           end
  | Raise e => request_failure e
  end.

Definition download_result {node : Type} (w : World node) (image_url : str)
    : exc (option (list Byte.byte)) :=
  match requests_get w (resolved_url image_url) with
  | Return r => Return (if error_status r then None else Some (content r))
  | Raise e => request_failure e
  end.

(** [page_raises w url e]: fetching the page at [url] raises [e], in the
    request or, when the status is no error status, in the parser. *)
Definition page_raises {node : Type} (w : World node) (url : str) (e : exn)
    : Prop :=
  requests_get w url = Raise e ∨
  ∃ r, requests_get w url = Return r ∧ error_status r = false ∧
       BeautifulSoup w (text r) = Raise e.

(** The exception that ends a write, if any. *)
Definition raised_by (o : write_outcome) : option exn :=
  match o with
  | WriteOk => None
  | OpenRaises e => Some e
  | RaisesAfter _ e => Some e
  end.

(** The order of the calendar. *)
Definition day_compare (a b : Day) : comparison :=
  match year a ?= year b with
  | Eq => match month a ?= month b with
          | Eq => day a ?= day b
          | c => c
          end
  | c => c
  end.

(** A day that [strftime_Ymd] renders with ten characters. *)
Definition four_digit_year (d : Day) : Prop :=
  1000 ≤ year d ∧ year d ≤ 9999 ∧ 1 ≤ month d ∧ month d ≤ 12 ∧
  1 ≤ day d ∧ day d ≤ 31.

(** The URLs requested, in the order of the log. *)
Definition requested (evs : list event) : list str :=
  omap (λ e, match e with HttpGet url => Some url | FileOpen _ => None end) evs.

(** * Properties *)

(** ** The pure helpers *)

Lemma split_nonempty sep s : split sep s ≠ [].
Proof.
  destruct s as [|c s]; simpl; [done|].
  case_decide; [done|]. by destruct (split sep s).
Qed.

Lemma split_no_sep sep s : sep ∉ s → split sep s = [s].
Proof.
  induction s as [|c s IH]; intros Hs; simpl; [done|].
  apply not_elem_of_cons in Hs as [Hc Hs].
  rewrite decide_False by done. by rewrite IH.
Qed.

Lemma split_app_sep sep a b :
  split sep (a ++ sep :: b) =
  match split sep a with
  | [] => split sep b
  | seg :: segs => (seg :: segs) ++ split sep b
  end.
Proof.
  induction a as [|c a IH]; simpl.
  - by rewrite decide_True.
  - case_decide.
    + rewrite IH. by destruct (split sep a).
    + rewrite IH. destruct (split sep a) eqn:E; [by apply split_nonempty in E|done].
Qed.

Lemma last_split_app_sep sep a b :
  last (split sep (a ++ sep :: b)) = last (split sep b).
Proof.
  rewrite split_app_sep.
  destruct (split sep a) as [|seg segs]; [done|].
  destruct (split sep b) as [|x l] eqn:E; [by apply split_nonempty in E|].
  apply last_app_cons.
Qed.

(** C6. [sanitize_filename] removes exactly the blocked characters: the
    blocklist is the eleven characters / \ ? % * : | < > . and the double
    quote; the output holds none of them; it is an order-preserving
    subsequence of the input; and every blocklist-free subsequence of the
    input is a subsequence of the output, so that no other character was
    dropped or changed. *)
Theorem sanitize_filename_removes_exactly_blocked (filename : str) :
  INVALID_FILENAME_CHARS = [47; 92; 63; 37; 42; 58; 124; 34; 60; 62; 46] ∧
  Forall (λ c, c ∉ INVALID_FILENAME_CHARS) (sanitize_filename filename) ∧
  sanitize_filename filename `sublist_of` filename ∧
  (∀ t : str, t `sublist_of` filename →
     Forall (λ c, c ∉ INVALID_FILENAME_CHARS) t →
     t `sublist_of` sanitize_filename filename).
Proof.
  unfold sanitize_filename. split_and!.
  - reflexivity.
  - apply Forall_forall. intros c Hc. by apply list_elem_of_filter in Hc as [? _].
  - apply sublist_filter.
  - intros t Hsub. induction Hsub as [|x l1 l2 _ IH|x l1 l2 _ IH]; intros Ht.
    + done.
    + apply Forall_cons in Ht as [Hx Ht].
      rewrite filter_cons_True by done. constructor. by apply IH.
    + rewrite filter_cons. case_decide; [constructor|]; by apply IH.
Qed.

(** ** The stages of the pipeline, one outcome each *)

Section stages.
Context {node : Type} `{!HtmlTree node} (w : World node).

Lemma startswith_prefix_of (s p : str) :
  startswith s p = true ↔ p `prefix_of` s.
Proof.
  revert s. induction p as [|a p IH]; intros [|b s]; simpl.
  - split; [intros _; apply prefix_nil|done].
  - split; [intros _; apply prefix_nil|done].
  - split; [done|]. intros Hp. by apply prefix_nil_not in Hp.
  - case_decide as Hab.
    + subst b. rewrite IH. split; [apply prefix_cons|apply prefix_cons_inv_2].
    + split; [done|]. intros Hp. by apply prefix_cons_inv_1 in Hp.
Qed.

Lemma fetch_webpage_outcome (url : str) (s : State) :
  fetch_webpage w url s = (fetch_result w url, add_event s (HttpGet url)).
Proof.
  unfold fetch_result, request_failure, fetch_webpage, try_exceptM, http_get,
    raise_for_status, error_status, lift, mbind, M_bind, log_event, raise,
    mret, M_ret, add_event.
  destruct (requests_get w url) as [r|e].
  - destruct (_ && _); [done|].
    destruct (BeautifulSoup w (text r)) as [soup|e]; [done|].
    by destruct (is_RequestException e).
  - by destruct (is_RequestException e).
Qed.

Lemma download_image_outcome (image_url : str) (s : State) :
  download_image w image_url s =
  (download_result w image_url,
   add_event s (HttpGet (resolved_url image_url))).
Proof.
  unfold download_result, request_failure, download_image, try_exceptM,
    http_get, raise_for_status, error_status, lift, mbind, M_bind, log_event,
    raise, mret, M_ret, add_event.
  fold (resolved_url image_url).
  destruct (requests_get w (resolved_url image_url)) as [r|e].
  - by destruct (_ && _).
  - by destruct (is_RequestException e).
Qed.

Lemma fetched_of_result (url : str) :
  fetched w url =
  match fetch_result w url with Return soup => soup | Raise _ => None end.
Proof.
  unfold fetched, fetch_result, request_failure.
  destruct (requests_get w url) as [r|e].
  - destruct (error_status r); [done|].
    destruct (BeautifulSoup w (text r)) as [soup|e]; [done|].
    by destruct (is_RequestException e).
  - by destruct (is_RequestException e).
Qed.

Lemma downloaded_of_result (image_url : str) :
  downloaded w image_url =
  match download_result w image_url with
  | Return data => data
  | Raise _ => None
  end.
Proof.
  unfold downloaded, download_result, request_failure.
  destruct (requests_get w (resolved_url image_url)) as [r|e]; [done|].
  by destruct (is_RequestException e).
Qed.

Lemma fetch_result_Some (url : str) (soup : node) :
  fetch_result w url = Return (Some soup) ↔ fetched w url = Some soup.
Proof.
  rewrite fetched_of_result.
  destruct (fetch_result w url) as [o|e]; [|done].
  split; [by intros [= ->]|by intros ->].
Qed.

Lemma download_result_Some (image_url : str) (data : list Byte.byte) :
  download_result w image_url = Return (Some data) ↔
  downloaded w image_url = Some data.
Proof.
  rewrite downloaded_of_result.
  destruct (download_result w image_url) as [o|e]; [|done].
  split; [by intros [= ->]|by intros ->].
Qed.

Lemma save_image_outcome (image_data : list Byte.byte) (filepath : str)
    (s : State) :
  save_image w image_data filepath s =
  let s' := add_event s (FileOpen filepath) in
  match io_outcome w filepath with
  | WriteOk => (Return true, put_file s' filepath (Binary image_data))
  | OpenRaises e => (write_failure e, s')
  | RaisesAfter n e =>
      (write_failure e,
       put_file s' filepath (Binary (concat (take n [image_data]))))
  end.
Proof.
  unfold save_image, try_exceptM, write_binary, write_failure, mbind, M_bind,
    log_event, store, raise, mret, M_ret, add_event, put_file. simpl.
  destruct (io_outcome w filepath) as [|e|n e]; [done|..];
    by destruct (is_IOError e).
Qed.

Lemma request_failure_Raise {A : Type} (e' e : exn) :
  @request_failure A e' = Raise e ↔ e' = e ∧ e ≠ RequestException.
Proof.
  unfold request_failure.
  destruct e'; simpl; (split; [intros [= <-]|intros [<- ?]]); done.
Qed.

Lemma fetch_result_Raise (url : str) (e : exn) :
  fetch_result w url = Raise e ↔ page_raises w url e ∧ e ≠ RequestException.
Proof.
  unfold fetch_result, page_raises.
  destruct (requests_get w url) as [r|e'].
  - destruct (error_status r) eqn:Hst.
    { split; [done|]. intros [[?|(? & [= <-] & ? & _)] _]; congruence. }
    destruct (BeautifulSoup w (text r)) as [soup|e'] eqn:Hsoup.
    { split; [done|]. intros [[?|(? & [= <-] & _ & ?)] _]; congruence. }
    rewrite request_failure_Raise. split.
    + intros [-> ?]. split; [|done]. right. by exists r.
    + intros [[?|(? & [= <-] & _ & ?)] ?]; [done|]. split; congruence.
  - rewrite request_failure_Raise. split.
    + intros [-> ?]. split; [by left|done].
    + intros [[[= ->]|(? & ? & _)] ?]; done.
Qed.

Lemma download_result_Raise (image_url : str) (e : exn) :
  download_result w image_url = Raise e ↔
  requests_get w (resolved_url image_url) = Raise e ∧ e ≠ RequestException.
Proof.
  unfold download_result.
  destruct (requests_get w (resolved_url image_url)) as [r|e'].
  - split; [done|by intros [? _]].
  - rewrite request_failure_Raise.
    split; [by intros [-> ?]|by intros [[= ->] ?]].
Qed.

Lemma write_failure_not_true (e : exn) : write_failure e ≠ Return true.
Proof. unfold write_failure. by destruct (is_IOError e). Qed.

Lemma write_failure_Raise (e' e : exn) :
  write_failure e' = Raise e ↔ e' = e ∧ is_IOError e = false.
Proof.
  unfold write_failure.
  destruct e'; simpl; (split; [intros [= <-]|intros [<- ?]]); done.
Qed.

(** A run of [get_current_comic], stage by stage. *)
Lemma get_current_comic_run (s : State) :
  get_current_comic w s =
  let s1 := add_event s (HttpGet EXPLOSM_BASE_URL) in
  match fetch_result w EXPLOSM_BASE_URL with
  | Raise e => (Raise e, s1)
  | Return None => (Return false, s1)
  | Return (Some soup) =>
      match extract_comic_data soup with
      | Raise e => (Raise e, s1)
      | Return None => (Return false, s1)
      | Return (Some r) =>
          let s2 := add_event s1 (HttpGet (resolved_url (image_url r))) in
          match download_result w (image_url r) with
          | Raise e => (Raise e, s2)
          | Return None => (Return false, s2)
          | Return (Some data) =>
              let s3 := add_event s2 (FileOpen (image_path r)) in
              match io_outcome w (image_path r) with
              | OpenRaises e => (write_failure e, s3)
              | RaisesAfter n e =>
                  (write_failure e,
                   put_file s3 (image_path r) (Binary (concat (take n [data]))))
              | WriteOk =>
                  let s4 := add_event (put_file s3 (image_path r) (Binary data))
                              (FileOpen (metadata_path r)) in
                  let written n :=
                    Text (text_encode (os_platform w)
                            (concat (take n (metadata_lines r)))) in
                  match io_outcome w (metadata_path r) with
                  | OpenRaises e => (write_failure e, s4)
                  | RaisesAfter n e =>
                      (write_failure e,
                       put_file s4 (metadata_path r) (written n))
                  | WriteOk =>
                      (Return true, put_file s4 (metadata_path r) (written 4%nat))
                  end
              end
          end
      end
  end.
Proof.
  unfold get_current_comic. unfold mbind at 1. unfold M_bind.
  rewrite fetch_webpage_outcome. cbv zeta.
  destruct (fetch_result w EXPLOSM_BASE_URL) as [[soup|]|e]; [|done..].
  unfold mbind at 1. unfold M_bind, lift.
  destruct (extract_comic_data soup) as [[r|]|e]; [|done..].
  unfold mbind at 1. unfold M_bind.
  rewrite download_image_outcome.
  destruct (download_result w (image_url r)) as [[data|]|e]; [|done..].
  unfold mbind at 1. unfold M_bind.
  rewrite save_image_outcome. fold (image_path r). fold (metadata_path r).
  cbv zeta.
  destruct (io_outcome w (image_path r)) as [|e|n e];
    [|unfold write_failure; by destruct (is_IOError e)..].
  unfold negb, try_exceptM, write_text, write_failure, mbind, M_bind,
    log_event, store, raise, mret, M_ret, add_event, put_file.
  cbn [files events].
  destruct (io_outcome w (metadata_path r)) as [|e|n e]; [done|..];
    by destruct (is_IOError e).
Qed.
End stages.

(** The expression of line 187: the sanitized title, or smbc_comic when the
    sanitized title is the string unknown. *)
Lemma base_filename_sanitized_or_fallback (title : str) :
  (sanitize_filename title ≠ lit "unknown" →
     base_filename title = sanitize_filename title) ∧
  (sanitize_filename title = lit "unknown" →
     base_filename title = lit "smbc_comic").
Proof.
  unfold base_filename. split.
  - intros Hne. by rewrite decide_True.
  - intros Heq. rewrite decide_False; [done|]. intros Hne. by apply Hne.
Qed.

(** C8. [download_image] requests https: followed by the URL when the URL
    starts with two slashes, and the URL itself otherwise; it requests
    nothing else and touches no file. *)
Theorem download_image_requested_url {node : Type} (w : World node)
    (image_url : str) (s : State) :
  (lit "//" `prefix_of` image_url →
     events (download_image w image_url s).2 =
       events s ++ [HttpGet (lit "https:" ++ image_url)]) ∧
  (¬ lit "//" `prefix_of` image_url →
     events (download_image w image_url s).2 = events s ++ [HttpGet image_url]) ∧
  files (download_image w image_url s).2 = files s.
Proof.
  rewrite download_image_outcome. simpl. unfold resolved_url. split_and!.
  - intros Hp. apply startswith_prefix_of in Hp. by rewrite Hp.
  - intros Hp. destruct (startswith image_url (lit "//")) eqn:E; [|done].
    by apply startswith_prefix_of in E.
  - done.
Qed.

(** C9. [get_file_extension] returns what follows the last dot of the URL,
    query string included: png for a plain image URL, and the last
    dot-separated segment when the query string holds a dot. *)
Theorem get_file_extension_after_last_dot (pre suf : str) :
  ord "." ∉ suf →
  get_file_extension (pre ++ ord "." :: suf) = suf ∧
  get_file_extension (lit "https://x.com/path/comic.png") = lit "png" ∧
  get_file_extension (lit "https://x.com/path/comic.png?v=1.2") = lit "2".
Proof.
  intros Hsuf. split; [|by split].
  unfold get_file_extension.
  by rewrite last_split_app_sep, split_no_sep.
Qed.

Lemma get_file_extension_after_last_dot_witness :
(ord "." ∉ lit "jpg?size=large") ∧
  get_file_extension (lit "https://x.com/c.v2" ++ ord "." :: lit "jpg?size=large")
    = lit "jpg?size=large".
Proof.
  assert (H : ord "." ∉ lit "jpg?size=large")
    by (apply (bool_decide_unpack _); vm_compute; exact I).
  split; [exact H|].
  exact (proj1 (get_file_extension_after_last_dot (lit "https://x.com/c.v2")
                  (lit "jpg?size=large") H)).
Defined.

(** ** The extractor *)

(** Induction on trees: a property holds of every tag if it holds of a tag
    whenever it holds of its child tags. *)
Lemma Tag_tree_ind (P : Tag → Prop) :
  (∀ nm a cs, (∀ c, ChildTag c ∈ cs → P c) → P (mkTag nm a cs)) →
  ∀ t, P t.
Proof.
  intros H. fix IH 1. intros [nm a cs]. apply H.
  assert (Forall (λ e, match e with ChildTag c => P c | _ => True end) cs)
    as Hall.
  { induction cs as [|e cs IHcs]; [apply Forall_nil_2|].
    apply Forall_cons_2; [|exact IHcs].
    destruct e as [c| |]; [apply IH|exact I|exact I]. }
  clear IH. intros c Hc.
  by apply (proj1 (Forall_forall _ _) Hall) in Hc.
Qed.

Lemma elem_of_descendants (d t : Tag) : d ∈ descendants t ↔ occurs_in d t.
Proof.
  split.
  - revert d. induction t as [nm a cs IH] using Tag_tree_ind. intros d Hd.
    simpl in Hd. apply list_elem_of_bind in Hd as ([c| |] & Hd & He);
      [|by apply elem_of_nil in Hd..].
    apply elem_of_cons in Hd as [->|Hd].
    + by apply occurs_child.
    + apply occurs_deeper with c; [done|]. by apply IH.
  - induction 1 as [c [nm a cs] Hc|d c [nm a cs] Hc _ IH]; simpl in *;
      apply list_elem_of_bind; exists (ChildTag c); (split; [|done]).
    + by left.
    + by right.
Qed.

Lemma head_filter_first {A} (P : A → Prop) `{!∀ x, Decision (P x)}
    (l : list A) (x : A) :
  head (filter P l) = Some x ↔
  ∃ pre post, l = pre ++ x :: post ∧ P x ∧ Forall (λ y, ¬ P y) pre.
Proof.
  induction l as [|y l IH].
  - split; [done|]. intros (pre & post & Hl & _). by destruct pre.
  - rewrite filter_cons. case_decide as Hy; simpl.
    + split.
      * intros [= ->]. exists [], l. by split_and!.
      * intros ([|z pre] & post & [= -> ->] & Hx & Hpre); [done|].
        by apply Forall_cons in Hpre as [? _].
    + rewrite IH. split.
      * intros (pre & post & -> & Hx & Hpre). exists (y :: pre), post.
        split_and!; [done|done|by constructor].
      * intros ([|z pre] & post & [= -> Hl] & Hx & Hpre); [done|].
        exists pre, post. apply Forall_cons in Hpre as [_ Hpre]. by subst.
Qed.

(** [find] returns the first match in document order. *)
Lemma find_Some_first (t : Tag) (nm : str) (f : attr_filter) (x : Tag) :
  find t nm f = Some x ↔
  ∃ pre post, descendants t = pre ++ x :: post ∧ tag_matches nm f x ∧
              Forall (λ y, ¬ tag_matches nm f y) pre.
Proof. apply head_filter_first. Qed.

Lemma find_None_absent (t : Tag) (nm : str) (f : attr_filter) :
  (∀ d, occurs_in d t → ¬ tag_matches nm f d) → find t nm f = None.
Proof.
  intros Habs. unfold find.
  destruct (filter _ _) as [|x l] eqn:E; [done|].
  assert (x ∈ filter (tag_matches nm f) (descendants t)) as Hx
    by (rewrite E; left).
  apply list_elem_of_filter in Hx as [Hm Hx].
  apply elem_of_descendants in Hx. by apply Habs in Hx.
Qed.

(** Finds the lookup that raised, once the outcome of each is known. *)
Ltac blog_cases := simpl; intros ?; simplify_eq; solve [eauto 15].

Section extractor_facts.
Context {node : Type} `{!HtmlTree node}.


(** Exceptions outside the [except] clause escape. *)
Lemma extract_comic_data_escapes (soup : node) (e : exn) :
  extract_body soup = Raise e → structural_access_error e = false →
  extract_comic_data soup = Raise e.
Proof. intros Hb He. unfold extract_comic_data, try_except. by rewrite Hb, He. Qed.

(** The traversal of the blog area raises only what one of its five lookups
    raises. *)
Lemma blog_fields_raises (soup : node) (e : exn) :
  blog_fields soup = Raise e →
  tag_find soup (lit "div") (WithId (lit "blogarea")) = Raise e ∨
  ∃ blog_area,
    tag_find soup (lit "div") (WithId (lit "blogarea")) = Return (Some blog_area) ∧
    (tag_find blog_area (lit "div") (WithClass (lit "cc-newsheader")) = Raise e ∨
     (∃ news_header,
        tag_find blog_area (lit "div") (WithClass (lit "cc-newsheader"))
          = Return (Some news_header) ∧
        (tag_find news_header (lit "a") AnyAttrs = Raise e ∨
         ∃ title_link,
           tag_find news_header (lit "a") AnyAttrs = Return (Some title_link) ∧
           tag_get_text title_link = Raise e)) ∨
     tag_find blog_area (lit "div") (WithClass (lit "cc-publishtime")) = Raise e ∨
     ∃ publish_time_div,
       tag_find blog_area (lit "div") (WithClass (lit "cc-publishtime"))
         = Return (Some publish_time_div) ∧
       tag_get_text publish_time_div = Raise e).
Proof.
  unfold blog_fields.
  destruct (tag_find soup _ _) as [[blog_area|]|e0] eqn:Hblog; simpl;
    [|blog_cases..].
  destruct (tag_find blog_area _ (WithClass (lit "cc-newsheader")))
    as [[news_header|]|e1] eqn:Hheader; simpl; [| |blog_cases].
  - destruct (tag_find news_header _ _) as [[title_link|]|e2] eqn:Hlink; simpl;
      [| |blog_cases].
    + destruct (tag_get_text title_link) as [t|e3] eqn:Htitle; simpl;
        [|blog_cases].
      destruct (tag_find blog_area _ (WithClass (lit "cc-publishtime")))
        as [[publish_time_div|]|e4] eqn:Hpub;
        simpl; [|blog_cases..].
      destruct (tag_get_text publish_time_div) eqn:Hdate; blog_cases.
    + destruct (tag_find blog_area _ (WithClass (lit "cc-publishtime")))
        as [[publish_time_div|]|e4] eqn:Hpub;
        simpl; [|blog_cases..].
      destruct (tag_get_text publish_time_div) eqn:Hdate; blog_cases.
  - destruct (tag_find blog_area _ (WithClass (lit "cc-publishtime")))
        as [[publish_time_div|]|e4] eqn:Hpub;
      simpl; [|blog_cases..].
    destruct (tag_get_text publish_time_div) eqn:Hdate; blog_cases.
Qed.

Lemma extract_body_image (soup comic_div comic_img : node)
    (a : gmap str str) (src : str) :
  tag_find soup (lit "div") (WithId (lit "cc-comicbody")) = Return (Some comic_div) →
  tag_find comic_div (lit "img") AnyAttrs = Return (Some comic_img) →
  tag_attrs comic_img = Return a →
  a !! lit "src" = Some src →
  extract_body soup =
    '(title, date) ← blog_fields soup;
    Return (Some {| image_url := src; title := title; date := date;
                    hover_text := default [] (a !! lit "title") |}).
Proof.
  intros Hdiv Himg Ha Hsrc. unfold extract_body, tag_getitem, tag_get.
  rewrite Hdiv. simpl. rewrite Himg. simpl. rewrite Ha. simpl.
  rewrite decide_False by (by rewrite Hsrc). by rewrite Hsrc.
Qed.
End extractor_facts.

(** C2, as the code has it. Whenever [extract_comic_data] returns a record,
    the comic body was found, its first image was found and carries a src
    attribute, and the record's image_url is the value of that attribute.
    The value may be the empty string. *)
Theorem extract_comic_data_image_url_is_src {node : Type} `{!HtmlTree node}
    (soup : node) (r : ComicRecord) :
  extract_comic_data soup = Return (Some r) →
  ∃ comic_div comic_img a,
    tag_find soup (lit "div") (WithId (lit "cc-comicbody")) = Return (Some comic_div) ∧
    tag_find comic_div (lit "img") AnyAttrs = Return (Some comic_img) ∧
    tag_attrs comic_img = Return a ∧
    a !! lit "src" = Some (image_url r).
Proof.
  unfold extract_comic_data, try_except, extract_body, tag_getitem, tag_get.
  destruct (tag_find soup _ _) as [[comic_div|]|e] eqn:Hdiv; simpl;
    [|done|by destruct (structural_access_error e)].
  destruct (tag_find comic_div _ _) as [[comic_img|]|e] eqn:Himg; simpl;
    [|done|by destruct (structural_access_error e)].
  destruct (tag_attrs comic_img) as [a|e] eqn:Ha; simpl;
    [|by destruct (structural_access_error e)].
  case_decide as Hsrc; [done|].
  destruct (a !! lit "src") as [src|] eqn:Hsrc'; [|done]. simpl.
  destruct (blog_fields soup) as [[t d]|e]; simpl;
    [|by destruct (structural_access_error e)].
  intros [= <-]. by exists comic_div, comic_img, a.
Qed.

Lemma extract_comic_data_image_url_is_src_witness :
  ∃ r, extract_comic_data no_blog_page = Return (Some r) ∧
       image_url r = lit "//cdn.example/c/today.png" ∧
       ∃ comic_div comic_img a,
         tag_find no_blog_page (lit "div") (WithId (lit "cc-comicbody"))
           = Return (Some comic_div) ∧
         tag_find comic_div (lit "img") AnyAttrs = Return (Some comic_img) ∧
         tag_attrs comic_img = Return a ∧
         a !! lit "src" = Some (image_url r).
Proof.
  eexists. split; [vm_compute; reflexivity|]. split; [reflexivity|].
  apply (extract_comic_data_image_url_is_src no_blog_page).
  vm_compute. reflexivity.
Defined.

(** C2, as stated, fails: a record is returned whose image_url is the empty
    string. *)
Lemma empty_src_page_record :
  ∃ r, extract_comic_data empty_src_page = Return (Some r) ∧ image_url r = [].
Proof. eexists. split; [vm_compute; reflexivity|reflexivity]. Qed.

(** C3. On a document without a div whose id is cc-comicbody,
    [extract_comic_data] returns [None]; it does not raise. *)
Theorem extract_comic_data_without_comic_body (soup : Tag) :
  (∀ t, occurs_in t soup →
        ¬ (name t = lit "div" ∧ attrs t !! lit "id" = Some (lit "cc-comicbody"))) →
  extract_comic_data soup = Return None.
Proof.
  intros Habs. unfold extract_comic_data, try_except, extract_body. simpl.
  by rewrite (find_None_absent soup (lit "div") (WithId (lit "cc-comicbody"))).
Qed.

Lemma extract_comic_data_without_comic_body_witness :
  extract_comic_data no_comic_page = Return None.
Proof.
  apply extract_comic_data_without_comic_body.
  intros t Ht. apply elem_of_descendants in Ht. revert t Ht.
  apply Forall_forall. apply (bool_decide_unpack _). vm_compute. exact I.
Defined.

(** C4. On a document whose comic body is found with an image that carries a
    src attribute (the first cc-comicbody div in document order and the first
    img below it), and which has no div whose id is blogarea,
    [extract_comic_data] returns a record with title and date unknown and
    with the image's src as image_url. *)
Theorem extract_comic_data_without_blog_area
    (soup comic_div comic_img : Tag) (src : str) :
  find soup (lit "div") (WithId (lit "cc-comicbody")) = Some comic_div →
  find comic_div (lit "img") AnyAttrs = Some comic_img →
  attrs comic_img !! lit "src" = Some src →
  (∀ t, occurs_in t soup →
        ¬ (name t = lit "div" ∧ attrs t !! lit "id" = Some (lit "blogarea"))) →
  extract_comic_data soup =
    Return (Some {| image_url := src;
                    title := lit "unknown";
                    date := lit "unknown";
                    hover_text := default [] (attrs comic_img !! lit "title") |}).
Proof.
  intros Hdiv Himg Hsrc Hblog. unfold extract_comic_data, try_except.
  rewrite (extract_body_image soup comic_div comic_img (attrs comic_img) src);
    [|by simpl; f_equal..|done|done].
  unfold blog_fields. simpl.
  by rewrite (find_None_absent soup (lit "div") (WithId (lit "blogarea"))).
Qed.

Lemma extract_comic_data_without_blog_area_witness :
  extract_comic_data no_blog_page =
    Return (Some {| image_url := lit "//cdn.example/c/today.png";
                    title := lit "unknown";
                    date := lit "unknown";
                    hover_text := lit "funny" |}).
Proof.
  pose (img := element "img"
          [attr "src" "//cdn.example/c/today.png"; attr "title" "funny"] []).
  pose (div := element "div" [attr "id" "cc-comicbody"]
          [Comment (lit " comic "); ChildTag img]).
  apply (extract_comic_data_without_blog_area no_blog_page div img
           (lit "//cdn.example/c/today.png")).
  - vm_compute. reflexivity.
  - vm_compute. reflexivity.
  - vm_compute. reflexivity.
  - intros t Ht. apply elem_of_descendants in Ht. revert t Ht.
    apply Forall_forall. apply (bool_decide_unpack _). vm_compute. exact I.
Defined.




(** ** The pipeline *)

Lemma opened_add_http (s : State) (url : str) :
  opened (events (add_event s (HttpGet url))) = opened (events s).
Proof. unfold opened. simpl. rewrite omap_app. simpl. by rewrite app_nil_r. Qed.

Lemma opened_add_open (s : State) (path : str) :
  opened (events (add_event s (FileOpen path))) = opened (events s) ++ [path].
Proof. unfold opened. simpl. by rewrite omap_app. Qed.

(** C7. In a run of [get_current_comic] that gets as far as saving, the
    two files are opened under one base name: the image file is the base
    name, a dot and the extension, and the metadata file, when the run
    reaches it, is the base name followed by _metadata.txt. The base name is
    the sanitized title when the sanitized title differs from the string
    unknown, and smbc_comic when it equals unknown; this holds for every
    title, also one that becomes unknown only by sanitization, such as
    un.known. *)
Theorem get_current_comic_base_filename {node : Type} `{!HtmlTree node}
    (w : World node) (s s1 s2 : State) (soup : node) (r : ComicRecord)
    (data : list Byte.byte) :
  fetch_webpage w EXPLOSM_BASE_URL s = (Return (Some soup), s1) →
  extract_comic_data soup = Return (Some r) →
  download_image w (image_url r) s1 = (Return (Some data), s2) →
  ∃ base rest,
    opened (events (get_current_comic w s).2) =
      opened (events s)
      ++ (base ++ lit "." ++ get_file_extension (image_url r)) :: rest ∧
    (rest = [] ∨ rest = [base ++ lit "_metadata.txt"]) ∧
    ((get_current_comic w s).1 = Return true →
       rest = [base ++ lit "_metadata.txt"]) ∧
    (sanitize_filename (title r) ≠ lit "unknown" →
       base = sanitize_filename (title r)) ∧
    (sanitize_filename (title r) = lit "unknown" → base = lit "smbc_comic").
Proof.
  intros Hfetch Hextract Hdl.
  rewrite fetch_webpage_outcome in Hfetch. injection Hfetch as Hf <-.
  rewrite download_image_outcome in Hdl. injection Hdl as Hd _.
  destruct (base_filename_sanitized_or_fallback (title r)) as [Hne Heq].
  exists (base_filename (title r)).
  rewrite get_current_comic_run. cbv zeta. rewrite Hf, Hextract, Hd.
  fold (image_path r). fold (metadata_path r).
  destruct (io_outcome w (image_path r)) as [|e|n e].
  - exists [metadata_path r]. split_and!; [|by right|done..].
    destruct (io_outcome w (metadata_path r)) as [|e|n e]; cbn [snd];
      unfold put_file; cbn [events];
      rewrite ?opened_add_open; unfold add_event at 1; cbn [events];
      by rewrite ?opened_add_open, !opened_add_http, <-(assoc_L (++)).
  - exists []. split_and!; [|by left| |done..].
    + cbn [snd]. by rewrite opened_add_open, !opened_add_http.
    + cbn [fst]. by intros ?%write_failure_not_true.
  - exists []. split_and!; [|by left| |done..].
    + cbn [snd]. unfold put_file. cbn [events].
      by rewrite opened_add_open, !opened_add_http.
    + cbn [fst]. by intros ?%write_failure_not_true.
Qed.

Lemma get_current_comic_base_filename_witness :
  sanitize_filename (lit "un.known") = lit "unknown" ∧
  (get_current_comic dotted_title_world initial_state).1 = Return true ∧
  opened (events (get_current_comic dotted_title_world initial_state).2) =
    [lit "smbc_comic.png"; lit "smbc_comic_metadata.txt"].
Proof.
  assert ((get_current_comic dotted_title_world initial_state).1 = Return true)
    as Hrun by (vm_compute; reflexivity).
  destruct (get_current_comic_base_filename dotted_title_world initial_state
              (add_event initial_state (HttpGet EXPLOSM_BASE_URL))
              (add_event (add_event initial_state (HttpGet EXPLOSM_BASE_URL))
                 (HttpGet (lit "https://cdn.example/c/today.png")))
              dotted_title_page dotted_title_record png_bytes)
    as (base & rest & Hopened & _ & Hrest & _ & Hbase).
  - vm_compute. reflexivity.
  - vm_compute. reflexivity.
  - vm_compute. reflexivity.
  - split; [vm_compute; reflexivity|]. split; [exact Hrun|].
    rewrite Hopened, (Hrest Hrun), (Hbase eq_refl). vm_compute. reflexivity.
Defined.

(** C10. A run of [get_current_comic] in which the page fetch, the
    extraction or the image download returns [None] returns [False], leaves
    every file as it was and opens no file. In every run the files opened
    for writing are none, or the image file alone, or the image file followed
    by the metadata file; a file is opened only when the download has
    delivered the image, and no other file is changed. *)
Theorem get_current_comic_early_failure_writes_nothing
    {node : Type} `{!HtmlTree node} (w : World node) (s : State) :
  let run := get_current_comic w s in
  let untouched :=
    run.1 = Return false ∧ files run.2 = files s ∧
    opened (events run.2) = opened (events s) in
  ((fetch_webpage w EXPLOSM_BASE_URL s).1 = Return None → untouched) ∧
  (∀ soup s1,
     fetch_webpage w EXPLOSM_BASE_URL s = (Return (Some soup), s1) →
     extract_comic_data soup = Return None → untouched) ∧
  (∀ soup s1 r,
     fetch_webpage w EXPLOSM_BASE_URL s = (Return (Some soup), s1) →
     extract_comic_data soup = Return (Some r) →
     (download_image w (image_url r) s1).1 = Return None → untouched) ∧
  (∃ l, opened (events run.2) = opened (events s) ++ l ∧
        (∀ p, p ∉ l → files run.2 !! p = files s !! p) ∧
        (l = [] ∨
         ∃ soup s1 r data s2,
           fetch_webpage w EXPLOSM_BASE_URL s = (Return (Some soup), s1) ∧
           extract_comic_data soup = Return (Some r) ∧
           download_image w (image_url r) s1 = (Return (Some data), s2) ∧
           (l = [image_path r] ∨ l = [image_path r; metadata_path r]))).
Proof.
  cbv zeta. rewrite get_current_comic_run, fetch_webpage_outcome. cbv zeta.
  destruct (fetch_result w EXPLOSM_BASE_URL) as [[soup|]|e0] eqn:Hfetch.
  2:{ cbn [fst snd]. split_and!; try done.
      - intros _. by rewrite opened_add_http.
      - exists []. rewrite opened_add_http, app_nil_r. by split_and!; [| |left]. }
  2:{ cbn [fst snd]. split_and!; try done.
      exists []. rewrite opened_add_http, app_nil_r. by split_and!; [| |left]. }
  destruct (extract_comic_data soup) as [[r|]|e] eqn:Hextract.
  2:{ cbn [fst snd]. split_and!; try done.
      - intros ? ? [= <- <-] _. by rewrite opened_add_http.
      - intros ? ? ? [= <- <-]. by rewrite Hextract.
      - exists []. rewrite opened_add_http, app_nil_r. by split_and!; [| |left]. }
  2:{ cbn [fst snd]. split_and!; try done.
      - intros ? ? [= <- <-]. by rewrite Hextract.
      - intros ? ? ? [= <- <-]. by rewrite Hextract.
      - exists []. cbn [snd]. rewrite opened_add_http, app_nil_r.
        by split_and!; [| |left]. }
  destruct (download_result w (image_url r)) as [[data|]|e1] eqn:Hdl.
  2:{ cbn [fst snd]. split_and!; try done.
      - intros ? ? [= <- <-]. by rewrite Hextract.
      - intros ? ? r' [= <- <-]. rewrite Hextract. intros [= <-] _.
        by rewrite !opened_add_http.
      - exists []. cbn [snd]. rewrite !opened_add_http, app_nil_r.
        by split_and!; [| |left]. }
  2:{ cbn [fst snd]. split_and!; try done.
      - intros ? ? [= <- <-]. by rewrite Hextract.
      - intros ? ? r' [= <- <-]. rewrite Hextract. intros [= <-].
        by rewrite download_image_outcome, Hdl.
      - exists []. cbn [snd]. rewrite !opened_add_http, app_nil_r.
        by split_and!; [| |left]. }
  cbn [fst snd]. split_and!; try done.
  - intros ? ? [= <- <-]. by rewrite Hextract.
  - intros ? ? r' [= <- <-]. rewrite Hextract. intros [= <-].
    by rewrite download_image_outcome, Hdl.
  - assert (∀ l, l = [image_path r] ∨ l = [image_path r; metadata_path r] →
      ∃ soup' s1 r' data' s2,
        (Return (Some soup) : exc (option node),
         add_event s (HttpGet EXPLOSM_BASE_URL)) = (Return (Some soup'), s1) ∧
        extract_comic_data soup' = Return (Some r') ∧
        download_image w (image_url r') s1 = (Return (Some data'), s2) ∧
        (l = [image_path r'] ∨ l = [image_path r'; metadata_path r']))
      as Hstages.
    { intros l Hl. eexists soup, _, r, data, _. split_and!.
      - done.
      - done.
      - by rewrite download_image_outcome, Hdl.
      - done. }
    destruct (io_outcome w (image_path r)) as [|e2|n2 e2].
    + destruct (io_outcome w (metadata_path r)) as [|e3|n3 e3];
        (exists [image_path r; metadata_path r]; cbn [snd]; split_and!;
         [ unfold put_file; cbn [events];
           rewrite ?opened_add_open; unfold add_event at 1; cbn [events];
           rewrite ?opened_add_open, !opened_add_http, <-(assoc_L (++)); done
         | intros p Hp; apply not_elem_of_cons in Hp as [Hp1 Hp];
           apply not_elem_of_cons in Hp as [Hp2 _];
           unfold put_file, add_event; cbn [files];
           rewrite ?lookup_insert_ne by done; done
         | right; apply Hstages; by right ]).
    + exists [image_path r]. cbn [snd]. split_and!.
      * by rewrite opened_add_open, !opened_add_http.
      * done.
      * right. apply Hstages. by left.
    + exists [image_path r]. cbn [snd]. split_and!.
      * unfold put_file. cbn [events]. by rewrite opened_add_open, !opened_add_http.
      * intros p Hp. apply not_elem_of_cons in Hp as [Hp1 _].
        unfold put_file, add_event. cbn [files]. by rewrite lookup_insert_ne.
      * right. apply Hstages. by left.
Qed.

(** The end-to-end scenario: the image is saved under the title and the
    metadata file holds the four lines. *)
Example get_current_comic_today :
  extract_comic_data today_page = Return (Some today_record) ∧
  let run := get_current_comic today_world initial_state in
  run.1 = Return true ∧
  events run.2 =
    [HttpGet (lit "https://www.smbc-comics.com/");
     HttpGet (lit "https://cdn.example/c/today.png");
     FileOpen (lit "Today's Comic.png");
     FileOpen (lit "Today's Comic_metadata.txt")] ∧
  files run.2 !! lit "Today's Comic.png" = Some (Binary png_bytes) ∧
  files run.2 !! lit "Today's Comic_metadata.txt" =
    Some (Text (lit "Title: Today's Comic" ++ [10] ++
                lit "Date: March 3rd, 2024" ++ [10] ++
                lit "Hover Text: funny" ++ [10] ++
                lit "Image URL: //cdn.example/c/today.png" ++ [10])).
Proof. split; [by vm_compute|]. cbv zeta. split_and!; by vm_compute. Qed.

Lemma get_current_comic_early_failure_writes_nothing_witness :
  let run := get_current_comic missing_image_world initial_state in
  run.1 = Return false ∧ files run.2 = files initial_state ∧
  opened (events run.2) = opened (events initial_state).
Proof.
  destruct (get_current_comic_early_failure_writes_nothing
              missing_image_world initial_state) as (_ & _ & Hdownload & _).
  apply (Hdownload today_page
           (add_event initial_state (HttpGet EXPLOSM_BASE_URL)) today_record).
  - vm_compute. reflexivity.
  - vm_compute. reflexivity.
  - vm_compute. reflexivity.
Defined.

(** ** The metadata file, written and read back *)

Lemma lstrip_space_cons (c : char) (s : str) :
  isspace c = true → lstrip (c :: s) = lstrip s.
Proof. intros Hc. simpl. by rewrite Hc. Qed.

Lemma rstrip_space_snoc (s : str) (c : char) :
  isspace c = true → rstrip (s ++ [c]) = rstrip s.
Proof. intros Hc. unfold rstrip. by rewrite reverse_snoc, lstrip_space_cons. Qed.

Lemma strip_space_snoc (s : str) (c : char) :
  isspace c = true → strip (s ++ [c]) = strip s.
Proof.
  intros Hc. unfold strip. induction s as [|a s IH].
  - simpl. by rewrite Hc.
  - change ((a :: s) ++ [c]) with (a :: (s ++ [c])). cbn [lstrip].
    destruct (isspace a); [exact IH|].
    by apply (rstrip_space_snoc (a :: s)).
Qed.

(** The value of a written line: one space before, a line feed after. *)
Lemma strip_written_value (s : str) : strip (32 :: s ++ [10]) = strip s.
Proof.
  change (32 :: s ++ [10]) with ((32 :: s) ++ [10]).
  rewrite (strip_space_snoc (32 :: s)) by done.
  unfold strip. by rewrite lstrip_space_cons.
Qed.

Lemma split_once_first (sep : char) (key value : str) :
  sep ∉ key → split_once sep (key ++ sep :: value) = Some (key, value).
Proof.
  induction key as [|c key IH]; intros Hkey; simpl.
  - by rewrite decide_True.
  - apply not_elem_of_cons in Hkey as [Hc Hkey].
    rewrite decide_False by done. by rewrite IH.
Qed.

Lemma text_encode_app (p : platform) (a b : str) :
  text_encode p (a ++ b) = text_encode p a ++ text_encode p b.
Proof. apply bind_app. Qed.

Lemma text_encode_plain (p : platform) (s : str) :
  10 ∉ s → text_encode p s = s.
Proof.
  unfold text_encode. induction s as [|c s IH]; intros Hs; [done|].
  apply not_elem_of_cons in Hs as [Hc Hs].
  rewrite bind_cons, IH by done. by rewrite decide_False.
Qed.

Lemma text_encode_line (p : platform) (s rest : str) :
  text_encode p (s ++ [10] ++ rest) =
  text_encode p s ++ linesep p ++ text_encode p rest.
Proof.
  rewrite !text_encode_app. do 2 f_equal.
  unfold text_encode. by rewrite bind_singleton, decide_True.
Qed.

Lemma universal_newlines_app_lf (cr : bool) (a b : str) :
  universal_newlines cr (a ++ 10 :: b) =
  universal_newlines cr (a ++ [10]) ++ universal_newlines false b.
Proof.
  revert cr. induction a as [|c a IH]; intros cr; simpl.
  - by destruct cr.
  - repeat case_decide; rewrite ?IH; try done. by destruct cr.
Qed.

Lemma universal_newlines_plain (s rest : str) :
  no_linebreak s →
  universal_newlines false (s ++ rest) = s ++ universal_newlines false rest.
Proof.
  intros [Hlf Hcr]. induction s as [|c s IH]; [done|].
  apply not_elem_of_cons in Hlf as [? Hlf].
  apply not_elem_of_cons in Hcr as [? Hcr].
  simpl. rewrite !decide_False by done. by rewrite IH.
Qed.

Lemma universal_newlines_linesep (p : platform) (rest : str) :
  universal_newlines false (linesep p ++ rest) =
  10 :: universal_newlines false rest.
Proof. by destruct p. Qed.

Lemma universal_newlines_ends_lf (cr : bool) (a : str) :
  cr = false ∨ a ≠ [] →
  ∃ y, universal_newlines cr (a ++ [10]) = y ++ [10].
Proof.
  revert cr. induction a as [|c a IH]; intros cr Hcr.
  - destruct Hcr as [->|?]; [by exists []|done].
  - simpl. case_decide.
    + destruct a as [|c' a].
      * by exists [].
      * destruct (IH true) as [y Hy]; [by right|].
        exists (10 :: y). by rewrite Hy.
    + destruct (IH false) as [y Hy]; [by left|]. rewrite Hy.
      case_decide; [destruct cr|].
      * by exists y.
      * by exists (10 :: y).
      * by exists (c :: y).
Qed.

Lemma readlines_nonempty (s : str) : s ≠ [] → readlines s ≠ [].
Proof.
  destruct s as [|c s]; [done|]. intros _. simpl.
  case_decide; [done|]. by destruct (readlines s).
Qed.

Lemma readlines_app_lf (a b : str) :
  readlines (a ++ 10 :: b) = readlines (a ++ [10]) ++ readlines b.
Proof.
  induction a as [|c a IH]; simpl; [done|].
  case_decide; rewrite IH; [done|].
  destruct (readlines (a ++ [10])) as [|line lines] eqn:E; [|done].
  apply readlines_nonempty in E; [done|]. by destruct a.
Qed.

Lemma readlines_line (s rest : str) :
  10 ∉ s → readlines (s ++ 10 :: rest) = (s ++ [10]) :: readlines rest.
Proof.
  induction s as [|c s IH]; intros Hs; simpl; [done|].
  apply not_elem_of_cons in Hs as [Hc Hs].
  rewrite decide_False by done. by rewrite IH.
Qed.

Lemma no_linebreak_app (a b : str) :
  no_linebreak a → no_linebreak b → no_linebreak (a ++ b).
Proof.
  intros [? ?] [? ?]. split; apply not_elem_of_app; by split.
Qed.

Lemma no_linebreak_lit_decide (s : str) :
  bool_decide (no_linebreak s) = true → no_linebreak s.
Proof. apply bool_decide_eq_true_1. Qed.

(** A line without line breaks reads back as it was written. *)
Lemma read_back_line (p : platform) (s rest : str) :
  no_linebreak s →
  universal_newlines false (text_encode p (s ++ [10] ++ rest)) =
  s ++ 10 :: universal_newlines false (text_encode p rest).
Proof.
  intros Hs. rewrite text_encode_line, text_encode_plain by apply Hs.
  by rewrite universal_newlines_plain, universal_newlines_linesep.
Qed.

(** Whatever a line holds, the text after its line feed starts a new line. *)
Lemma read_back_any_line (p : platform) (s rest : str) :
  ∃ y, universal_newlines false (text_encode p (s ++ [10] ++ rest)) =
       y ++ 10 :: universal_newlines false (text_encode p rest).
Proof.
  rewrite text_encode_line.
  assert (∃ pre, linesep p = pre ++ [10]) as [pre ->]
    by (destruct p; [by exists []|by exists [13]]).
  rewrite <-(assoc_L (++) pre), (assoc_L (++) (text_encode p s) pre). simpl.
  rewrite universal_newlines_app_lf.
  destruct (universal_newlines_ends_lf false (text_encode p s ++ pre))
    as [y ->]; [by left|].
  exists y. by rewrite <-(assoc_L (++)).
Qed.

Lemma parse_metadata_snoc (lines : list str) (key value : str) :
  ord ":" ∉ key →
  parse_metadata (lines ++ [key ++ ord ":" :: value]) =
  <[strip key := strip value]> (parse_metadata lines).
Proof.
  intros Hkey. unfold parse_metadata. rewrite foldl_app. simpl.
  by rewrite split_once_first.
Qed.

(** The lines read back from the metadata file end with the Date line, the
    Hover Text line and the Image URL line, whatever the title holds. *)
Lemma metadata_file_lines (p : platform) (r : ComicRecord) :
  no_linebreak (date r) → no_linebreak (hover_text r) →
  no_linebreak (image_url r) →
  ∃ title_lines,
    readlines (universal_newlines false (metadata_file_text p r)) =
    title_lines ++ [lit "Date: " ++ date r ++ [10];
                    lit "Hover Text: " ++ hover_text r ++ [10];
                    lit "Image URL: " ++ image_url r ++ [10]].
Proof.
  intros Hd Hh Hu. unfold metadata_file_text.
  assert (concat (metadata_lines r) =
          (lit "Title: " ++ title r) ++ [10] ++
          (lit "Date: " ++ date r) ++ [10] ++
          (lit "Hover Text: " ++ hover_text r) ++ [10] ++
          (lit "Image URL: " ++ image_url r) ++ [10] ++ []) as ->.
  { unfold metadata_lines. cbn [concat]. by rewrite <-!(assoc_L (++)). }
  destruct (read_back_any_line p (lit "Title: " ++ title r)
              ((lit "Date: " ++ date r) ++ [10] ++
               (lit "Hover Text: " ++ hover_text r) ++ [10] ++
               (lit "Image URL: " ++ image_url r) ++ [10] ++ [])) as [y ->].
  rewrite !read_back_line
    by (apply no_linebreak_app; [by apply no_linebreak_lit_decide|done]).
  rewrite readlines_app_lf.
  exists (readlines (y ++ [10])). f_equal.
  rewrite <-!(assoc_L (++)).
  assert (∀ s t : str, 10 ∉ s → no_linebreak t → 10 ∉ s ++ t) as Hlf.
  { intros s t Hs [Ht _]. apply not_elem_of_app. by split. }
  assert (∀ s : str, bool_decide (10 ∉ s) = true → 10 ∉ s) as Hdec
    by (intros s; apply bool_decide_eq_true_1).
  rewrite (assoc_L (++) (lit "Date: ")), readlines_line
    by (apply Hlf; [by apply Hdec|done]).
  rewrite (assoc_L (++) (lit "Hover Text: ")), readlines_line
    by (apply Hlf; [by apply Hdec|done]).
  rewrite (assoc_L (++) (lit "Image URL: ")), readlines_line
    by (apply Hlf; [by apply Hdec|done]).
  by rewrite <-!(assoc_L (++)).
Qed.

Lemma parse_metadata_last_lines (title_lines : list str) (d h u : str) :
  let metadata :=
    parse_metadata (title_lines ++ [lit "Date: " ++ d ++ [10];
                                    lit "Hover Text: " ++ h ++ [10];
                                    lit "Image URL: " ++ u ++ [10]]) in
  metadata !! lit "Date" = Some (strip d) ∧
  metadata !! lit "Hover Text" = Some (strip h).
Proof.
  cbv zeta.
  change (title_lines ++ [lit "Date: " ++ d ++ [10];
                          lit "Hover Text: " ++ h ++ [10];
                          lit "Image URL: " ++ u ++ [10]])
    with (title_lines ++ [lit "Date" ++ ord ":" :: 32 :: d ++ [10]]
                      ++ [lit "Hover Text" ++ ord ":" :: 32 :: h ++ [10]]
                      ++ [lit "Image URL" ++ ord ":" :: 32 :: u ++ [10]]).
  assert (∀ s : str, bool_decide (ord ":" ∉ s) = true → ord ":" ∉ s) as Hdec
    by (intros s; apply bool_decide_eq_true_1).
  rewrite !(assoc_L (++)), !parse_metadata_snoc by (by apply Hdec).
  rewrite !strip_written_value.
  change (strip (lit "Date")) with (lit "Date").
  change (strip (lit "Hover Text")) with (lit "Hover Text").
  change (strip (lit "Image URL")) with (lit "Image URL").
  split.
  - rewrite !lookup_insert_ne by (by apply (bool_decide_unpack _)).
    apply lookup_insert_eq.
  - rewrite lookup_insert_ne by (by apply (bool_decide_unpack _)).
    apply lookup_insert_eq.
Qed.

(** A run that returns [True] has stored the four metadata lines of the
    extracted record in the metadata file. *)
Lemma get_current_comic_metadata_file {node : Type} `{!HtmlTree node}
    (w : World node) (s : State) :
  (get_current_comic w s).1 = Return true →
  ∃ soup r,
    fetched w EXPLOSM_BASE_URL = Some soup ∧
    extract_comic_data soup = Return (Some r) ∧
    files (get_current_comic w s).2 !! metadata_path r =
      Some (Text (metadata_file_text (os_platform w) r)).
Proof.
  rewrite get_current_comic_run. cbv zeta.
  destruct (fetch_result w EXPLOSM_BASE_URL) as [[soup|]|e0] eqn:Hs;
    cbn [fst]; [|done..].
  destruct (extract_comic_data soup) as [[r|]|e] eqn:Hr; cbn [fst]; [|done..].
  destruct (download_result w (image_url r)) as [[data|]|e1]; cbn [fst];
    [|done..].
  destruct (io_outcome w (image_path r)) as [|e2|n2 e2]; cbn [fst];
    [|by intros ?%write_failure_not_true..].
  destruct (io_outcome w (metadata_path r)) as [|e3|n3 e3]; cbn [fst];
    [|by intros ?%write_failure_not_true..].
  intros _. exists soup, r. split_and!; [by apply fetch_result_Some|done|].
  unfold put_file. cbn [snd files]. by rewrite lookup_insert_eq.
Qed.

(** C1, as the code has it. For a record whose date, hover text and image
    URL hold no line feed and no carriage return, and whose date and hover
    text neither start nor end with whitespace, the metadata file written
    from the record reads back with the record's date under Date and its
    hover text under Hover Text, on either platform and whatever the title
    holds. *)
Theorem metadata_round_trip (p : platform) (fs : gmap str file_data)
    (metadata_file : str) (r : ComicRecord) :
  no_linebreak (date r) → no_linebreak (hover_text r) →
  no_linebreak (image_url r) →
  strip (date r) = date r → strip (hover_text r) = hover_text r →
  let metadata :=
    read_metadata (<[metadata_file := Text (metadata_file_text p r)]> fs)
      metadata_file in
  metadata !! lit "Date" = Some (date r) ∧
  metadata !! lit "Hover Text" = Some (hover_text r).
Proof.
  intros Hd Hh Hu Hsd Hsh. cbv zeta. unfold read_metadata.
  rewrite lookup_insert_eq.
  destruct (metadata_file_lines p r Hd Hh Hu) as [title_lines ->].
  pose proof (parse_metadata_last_lines title_lines (date r) (hover_text r)
                (image_url r)) as Hparse.
  cbv zeta in Hparse. by rewrite Hsd, Hsh in Hparse.
Qed.

Lemma metadata_round_trip_witness :
  let metadata :=
    read_metadata
      (<[lit "Today's Comic_metadata.txt" :=
           Text (metadata_file_text Windows today_record)]> ∅)
      (lit "Today's Comic_metadata.txt") in
  metadata !! lit "Date" = Some (lit "March 3rd, 2024") ∧
  metadata !! lit "Hover Text" = Some (lit "funny").
Proof.
  apply (metadata_round_trip Windows ∅ (lit "Today's Comic_metadata.txt")
           today_record).
  - apply (bool_decide_unpack _). vm_compute. exact I.
  - apply (bool_decide_unpack _). vm_compute. exact I.
  - apply (bool_decide_unpack _). vm_compute. exact I.
  - vm_compute. reflexivity.
  - vm_compute. reflexivity.
Defined.

(** C1, as stated, fails: a hover text that starts with a space reads back
    without it, and a hover text that holds a line feed can replace the
    date. *)
Lemma metadata_round_trip_fails :
  (let metadata :=
     read_metadata
       (<[metadata_path spaced_record :=
            Text (metadata_file_text Posix spaced_record)]> ∅)
       (metadata_path spaced_record) in
   metadata !! lit "Hover Text" = Some (lit "funny") ∧
   metadata !! lit "Hover Text" ≠ Some (hover_text spaced_record)) ∧
  (let metadata :=
     read_metadata
       (<[metadata_path two_line_record :=
            Text (metadata_file_text Posix two_line_record)]> ∅)
       (metadata_path two_line_record) in
   metadata !! lit "Date" = Some (lit "never") ∧
   metadata !! lit "Date" ≠ Some (date two_line_record)).
Proof.
  split; cbv zeta.
  - assert (read_metadata
              (<[metadata_path spaced_record :=
                   Text (metadata_file_text Posix spaced_record)]> ∅)
              (metadata_path spaced_record) !! lit "Hover Text"
            = Some (lit "funny")) as -> by (vm_compute; reflexivity).
    split; [done|]. by vm_compute.
  - assert (read_metadata
              (<[metadata_path two_line_record :=
                   Text (metadata_file_text Posix two_line_record)]> ∅)
              (metadata_path two_line_record) !! lit "Date"
            = Some (lit "never")) as -> by (vm_compute; reflexivity).
    split; [done|]. by vm_compute.
Qed.

Lemma download_image_requested_url_witness :
  (lit "//" `prefix_of` lit "//cdn.example/c/today.png") ∧
  events (download_image today_world (lit "//cdn.example/c/today.png")
            initial_state).2 =
    events initial_state ++ [HttpGet (lit "https:" ++ lit "//cdn.example/c/today.png")] ∧
  ¬ (lit "//" `prefix_of` lit "https://x.com/path/comic.png") ∧
  events (download_image today_world (lit "https://x.com/path/comic.png")
            initial_state).2 =
    events initial_state ++ [HttpGet (lit "https://x.com/path/comic.png")].
Proof.
  assert (lit "//" `prefix_of` lit "//cdn.example/c/today.png") as Hrel
    by (by exists (lit "cdn.example/c/today.png")).
  assert (¬ (lit "//" `prefix_of` lit "https://x.com/path/comic.png")) as Habs
    by (apply (bool_decide_unpack _); vm_compute; exact I).
  split; [exact Hrel|]. split.
  - exact (proj1 (download_image_requested_url today_world
                    (lit "//cdn.example/c/today.png") initial_state) Hrel).
  - split; [exact Habs|].
    exact (proj1 (proj2 (download_image_requested_url today_world
                           (lit "https://x.com/path/comic.png") initial_state))
             Habs).
Defined.

(** * Further properties *)

(** ** File names *)

Lemma sanitize_filename_clean (s : str) :
  Forall (λ c, c ∉ INVALID_FILENAME_CHARS) s → sanitize_filename s = s.
Proof.
  unfold sanitize_filename. induction 1 as [|c s Hc _ IH]; [done|].
  by rewrite filter_cons_True, IH.
Qed.

Lemma sanitize_filename_no_blocked (s : str) :
  Forall (λ c, c ∉ INVALID_FILENAME_CHARS) (sanitize_filename s).
Proof.
  apply Forall_forall. intros c Hc.
  by apply list_elem_of_filter in Hc as [? _].
Qed.

Lemma image_path_not_metadata_path (r : ComicRecord) :
  image_path r ≠ metadata_path r.
Proof.
  unfold image_path, metadata_path. intros Heq.
  apply app_inv_head in Heq. vm_compute in Heq. discriminate Heq.
Qed.

(** X1. Sanitizing is idempotent: a sanitized name is not changed by
    sanitizing it again. *)
Theorem sanitize_filename_idempotent (filename : str) :
  sanitize_filename (sanitize_filename filename) = sanitize_filename filename.
Proof. apply sanitize_filename_clean, sanitize_filename_no_blocked. Qed.

(** X2. [sanitize_filename] works character by character: it distributes over
    concatenation, and it leaves a string unchanged exactly when the string
    holds no blocked character. *)
Theorem sanitize_filename_app_and_fixpoints (a b : str) :
  sanitize_filename (a ++ b) = sanitize_filename a ++ sanitize_filename b ∧
  (sanitize_filename a = a ↔ Forall (λ c, c ∉ INVALID_FILENAME_CHARS) a).
Proof.
  split; [apply filter_app|]. split.
  - intros <-. apply sanitize_filename_no_blocked.
  - apply sanitize_filename_clean.
Qed.

(** X3. The base filename never holds a blocked character, whatever the
    title: in particular it holds no slash and no dot, so it names a file of
    the working directory. *)
Theorem base_filename_no_blocked_chars (title : str) :
  Forall (λ c, c ∉ INVALID_FILENAME_CHARS) (base_filename title) ∧
  (ord "/" ∉ base_filename title) ∧ (ord "." ∉ base_filename title).
Proof.
  assert (Forall (λ c, c ∉ INVALID_FILENAME_CHARS) (base_filename title)) as H.
  { unfold base_filename. cbv zeta. case_decide.
    - apply sanitize_filename_no_blocked.
    - by apply (bool_decide_unpack _). }
  split; [done|].
  split; intros Hin; eapply Forall_forall in H; try exact Hin;
    apply H; by apply (bool_decide_unpack _).
Qed.

(** X4. The image file and the metadata file of a record never have the same
    name, so writing the metadata never overwrites the image. *)
Theorem image_and_metadata_paths_differ (r : ComicRecord) :
  image_path r ≠ metadata_path r.
Proof. apply image_path_not_metadata_path. Qed.

(** X5. A title made only of blocked characters (the empty title included)
    gives the empty base filename: the image is saved under a name that
    starts with the dot of the extension. *)
Theorem base_filename_of_blocked_title (r : ComicRecord) :
  Forall (λ c, c ∈ INVALID_FILENAME_CHARS) (title r) →
  base_filename (title r) = [] ∧
  image_path r = ord "." :: get_file_extension (image_url r) ∧
  metadata_path r = lit "_metadata.txt".
Proof.
  intros Hall.
  assert (base_filename (title r) = []) as Hbase.
  { unfold base_filename. cbv zeta.
    assert (sanitize_filename (title r) = []) as ->; [|done].
    unfold sanitize_filename. induction Hall as [|c s Hc _ IH]; [done|].
    rewrite filter_cons_False by (by intros Hn). exact IH. }
  unfold image_path, metadata_path. by rewrite Hbase.
Qed.

Lemma base_filename_of_blocked_title_witness :
  let r := {| image_url := lit "https://x.com/path/comic.png";
              title := lit "?..."; date := lit "unknown"; hover_text := [] |} in
  base_filename (title r) = [] ∧
  image_path r = ord "." :: get_file_extension (image_url r) ∧
  metadata_path r = lit "_metadata.txt".
Proof.
  apply (base_filename_of_blocked_title
           {| image_url := lit "https://x.com/path/comic.png";
              title := lit "?..."; date := lit "unknown"; hover_text := [] |}).
  apply (bool_decide_unpack _). vm_compute. exact I.
Defined.

Lemma last_split_parts (sep : char) (s e : str) :
  last (split sep s) = Some e →
  (sep ∉ e) ∧ (s = e ∨ ∃ pre, s = pre ++ sep :: e).
Proof.
  revert e. induction s as [|c s IH]; intros e; simpl.
  - intros [= <-]. split; [by apply not_elem_of_nil|by left].
  - case_decide as Hc.
    + subst c. destruct (split sep s) as [|seg segs] eqn:E;
        [by apply split_nonempty in E|].
      rewrite last_cons_cons. intros He. destruct (IH e He) as [Hne [->|[pre ->]]].
      * split; [done|]. right. by exists [].
      * split; [done|]. right. by exists (sep :: pre).
    + destruct (split sep s) as [|seg [|seg' segs]] eqn:E;
        [by apply split_nonempty in E| |].
      * intros [= <-]. destruct (IH seg eq_refl) as [Hne [->|[pre ->]]].
        -- split; [|by left]. apply not_elem_of_cons. by split.
        -- exfalso. rewrite split_app_sep in E.
           destruct (split sep pre) as [|x l] eqn:E'; [by apply split_nonempty in E'|].
           destruct (split sep seg) as [|y k] eqn:E'';
             [by apply split_nonempty in E''|].
           apply (f_equal length) in E. rewrite length_app in E. simpl in E. lia.
      * rewrite last_cons_cons. intros He.
        destruct (IH e He) as [Hne [->|[pre ->]]].
        -- exfalso. rewrite split_no_sep in E by done. by simplify_eq.
        -- split; [done|]. right. by exists (c :: pre).
Qed.

Lemma get_file_extension_whole (url : str) :
  ord "." ∉ url → get_file_extension url = url.
Proof. intros Hurl. unfold get_file_extension. by rewrite split_no_sep. Qed.

(** X7. The extension never holds a dot, and it is the end of the URL: either
    the whole URL, or what follows one of its dots. It may hold slashes and a
    query string, and for a URL without a dot it is the whole URL. *)
Theorem get_file_extension_is_dotless_suffix (url : str) :
  (ord "." ∉ get_file_extension url) ∧
  (url = get_file_extension url ∨
   ∃ pre, url = pre ++ ord "." :: get_file_extension url) ∧
  (ord "." ∉ url → get_file_extension url = url).
Proof.
  assert ((ord "." ∉ get_file_extension url) ∧
          (url = get_file_extension url ∨
           ∃ pre, url = pre ++ ord "." :: get_file_extension url)) as [? ?].
  { unfold get_file_extension.
    destruct (last (split (ord ".") url)) as [e|] eqn:He.
    - simpl. by apply last_split_parts.
    - apply last_None in He. by apply split_nonempty in He. }
  split_and!; [done..|apply get_file_extension_whole].
Qed.

(** ** More on the extractor *)

Lemma lstrip_idempotent (s : str) : lstrip (lstrip s) = lstrip s.
Proof.
  induction s as [|c s IH]; [done|]. simpl.
  destruct (isspace c) eqn:Hc; [done|]. simpl. by rewrite Hc.
Qed.

Lemma lstrip_snoc_nonspace (s : str) (c : char) :
  isspace c = false → lstrip (s ++ [c]) = lstrip s ++ [c].
Proof.
  intros Hc. induction s as [|a s IH]; simpl.
  - by rewrite Hc.
  - by destruct (isspace a).
Qed.

Lemma rstrip_cons_nonspace (c : char) (s : str) :
  isspace c = false → rstrip (c :: s) = c :: rstrip s.
Proof.
  intros Hc. unfold rstrip.
  by rewrite reverse_cons, lstrip_snoc_nonspace, reverse_snoc.
Qed.

Lemma rstrip_idempotent (s : str) : rstrip (rstrip s) = rstrip s.
Proof.
  unfold rstrip. by rewrite reverse_involutive, lstrip_idempotent.
Qed.

Lemma lstrip_nil_or_nonspace (s : str) :
  lstrip s = [] ∨ ∃ c t, lstrip s = c :: t ∧ isspace c = false.
Proof.
  induction s as [|c s IH]; [by left|]. simpl.
  destruct (isspace c) eqn:Hc; [done|]. right. by exists c, s.
Qed.

Lemma strip_idempotent (s : str) : strip (strip s) = strip s.
Proof.
  unfold strip. destruct (lstrip_nil_or_nonspace s) as [->|(c & t & -> & Hc)].
  - done.
  - rewrite rstrip_cons_nonspace by done. cbn [lstrip]. rewrite Hc.
    by rewrite rstrip_cons_nonspace, rstrip_idempotent.
Qed.

Section extractor_more.
Context {node : Type} `{!HtmlTree node}.

Lemma blog_fields_stripped (soup : node) (t d : str) :
  blog_fields soup = Return (t, d) → strip t = t ∧ strip d = d.
Proof.
  assert (strip (lit "unknown") = lit "unknown") as Hunknown by done.
  unfold blog_fields.
  destruct (tag_find soup _ _) as [[blog_area|]|e0]; simpl;
    [|by intros [= <- <-]|done].
  destruct (tag_find blog_area _ (WithClass (lit "cc-newsheader")))
    as [[news_header|]|e1]; simpl; [| |done].
  - destruct (tag_find news_header _ _) as [[title_link|]|e2]; simpl; [| |done].
    + destruct (tag_get_text title_link) as [x|e3]; simpl; [|done].
      destruct (tag_find blog_area _ (WithClass (lit "cc-publishtime")))
        as [[publish_time_div|]|e4]; simpl; [| |done].
      * destruct (tag_get_text publish_time_div) as [y|e5]; simpl; [|done].
        intros [= <- <-]. by rewrite !strip_idempotent.
      * intros [= <- <-]. by rewrite strip_idempotent.
    + destruct (tag_find blog_area _ (WithClass (lit "cc-publishtime")))
        as [[publish_time_div|]|e4]; simpl; [| |done].
      * destruct (tag_get_text publish_time_div) as [y|e5]; simpl; [|done].
        intros [= <- <-]. by rewrite !strip_idempotent.
      * by intros [= <- <-].
  - destruct (tag_find blog_area _ (WithClass (lit "cc-publishtime")))
      as [[publish_time_div|]|e4]; simpl; [| |done].
    + destruct (tag_get_text publish_time_div) as [y|e5]; simpl; [|done].
      intros [= <- <-]. by rewrite !strip_idempotent.
    + by intros [= <- <-].
Qed.

(** X9. The title and the date of every record returned by
    [extract_comic_data] are free of leading and trailing whitespace:
    stripping them changes nothing. *)
Theorem extract_comic_data_title_date_stripped (soup : node) (r : ComicRecord) :
  extract_comic_data soup = Return (Some r) →
  strip (title r) = title r ∧ strip (date r) = date r.
Proof.
  unfold extract_comic_data, try_except, extract_body.
  destruct (tag_find soup _ _) as [[comic_div|]|e]; simpl;
    [|done|by destruct (structural_access_error e)].
  destruct (tag_find comic_div _ _) as [[comic_img|]|e]; simpl;
    [|done|by destruct (structural_access_error e)].
  destruct (tag_attrs comic_img) as [a|e]; simpl;
    [|by destruct (structural_access_error e)].
  case_decide; [done|].
  destruct (tag_getitem comic_img _) as [src|e]; simpl;
    [|by destruct (structural_access_error e)].
  destruct (tag_get comic_img _ _) as [hover|e]; simpl;
    [|by destruct (structural_access_error e)].
  destruct (blog_fields soup) as [[t d]|e] eqn:Hblog; simpl;
    [|by destruct (structural_access_error e)].
  intros [= <-]. simpl. by apply blog_fields_stripped with soup.
Qed.
End extractor_more.

Lemma extract_comic_data_title_date_stripped_witness :
  ∃ r, extract_comic_data headerless_page = Return (Some r) ∧
       date r = lit "Posted March 3rd, 2024" ∧
       strip (title r) = title r ∧ strip (date r) = date r.
Proof.
  eexists. split; [vm_compute; reflexivity|]. split; [reflexivity|].
  apply (extract_comic_data_title_date_stripped headerless_page).
  vm_compute. reflexivity.
Defined.

(** On a BeautifulSoup tree the body of the [try] block is a plain
    computation: nothing in it raises. *)
Lemma extract_body_tree (soup : Tag) :
  extract_body soup =
  Return
    (comic_div ← find soup (lit "div") (WithId (lit "cc-comicbody"));
     comic_img ← find comic_div (lit "img") AnyAttrs;
     src ← attrs comic_img !! lit "src";
     let blog_area := find soup (lit "div") (WithId (lit "blogarea")) in
     let title_link :=
       blog_area ← blog_area;
       news_header ← find blog_area (lit "div") (WithClass (lit "cc-newsheader"));
       find news_header (lit "a") AnyAttrs in
     let publish_time_div :=
       blog_area ← blog_area;
       find blog_area (lit "div") (WithClass (lit "cc-publishtime")) in
     Some {| image_url := src;
             title := default (lit "unknown") (strip ∘ get_text <$> title_link);
             date := default (lit "unknown") (strip ∘ get_text <$> publish_time_div);
             hover_text := default [] (attrs comic_img !! lit "title") |}).
Proof.
  unfold extract_body, tag_getitem, tag_get, blog_fields. simpl.
  destruct (find soup _ (WithId (lit "cc-comicbody"))) as [comic_div|]; [|done].
  simpl. destruct (find comic_div _ _) as [comic_img|]; [|done]. simpl.
  destruct (attrs comic_img !! lit "src") as [src|] eqn:Hsrc; simpl; [|done].
  destruct (find soup _ (WithId (lit "blogarea"))) as [blog_area|]; [|done].
  simpl.
  destruct (find blog_area _ (WithClass (lit "cc-newsheader")))
    as [news_header|]; simpl;
    [destruct (find news_header _ _) as [title_link|]; simpl|];
    by destruct (find blog_area _ (WithClass (lit "cc-publishtime"))).
Qed.

(** X10. On a BeautifulSoup tree [extract_comic_data] never raises, and the
    [except] clause is never entered: the body of the [try] block itself
    returns. *)
Theorem extract_comic_data_total_on_trees (soup : Tag) :
  ∃ r, extract_body soup = Return r ∧ extract_comic_data soup = Return r.
Proof.
  eexists. split; [apply extract_body_tree|].
  unfold extract_comic_data, try_except. by rewrite extract_body_tree.
Qed.

(** X11. On a BeautifulSoup tree [extract_comic_data] returns [None] exactly
    when a required node is missing: no comic body, or no image in it, or an
    image without a src attribute. The blog area plays no part. *)
Theorem extract_comic_data_None_iff_required_missing (soup : Tag) :
  extract_comic_data soup = Return None ↔
  find soup (lit "div") (WithId (lit "cc-comicbody")) = None ∨
  ∃ comic_div,
    find soup (lit "div") (WithId (lit "cc-comicbody")) = Some comic_div ∧
    (find comic_div (lit "img") AnyAttrs = None ∨
     ∃ comic_img,
       find comic_div (lit "img") AnyAttrs = Some comic_img ∧
       attrs comic_img !! lit "src" = None).
Proof.
  unfold extract_comic_data, try_except. rewrite extract_body_tree.
  destruct (find soup _ (WithId (lit "cc-comicbody"))) as [comic_div|]
    eqn:Hdiv; simpl; [|by split; [left|]].
  destruct (find comic_div _ _) as [comic_img|] eqn:Himg; simpl.
  - destruct (attrs comic_img !! lit "src") as [src|] eqn:Hsrc; simpl.
    + split; [done|].
      intros [?|(c & ? & [?|(i & ? & ?)])]; simplify_eq; congruence.
    + split; [|done]. intros _. right. exists comic_div. split; [done|].
      right. by exists comic_img.
  - split; [|done]. intros _. right. exists comic_div. split; [done|]. by left.
Qed.

(** X12. The optional fields degrade one by one. Once the comic image and the
    blog area are found, the record is returned with the raw src and title
    attributes of the image, and: the title is unknown when the news header
    or its link is missing, and the stripped text of the link otherwise; the
    date is unknown when the publish-time div is missing, and its stripped
    text otherwise, whatever happened to the title. *)
Theorem extract_comic_data_fields_degrade_independently
    (soup comic_div comic_img blog_area : Tag) (src : str) :
  find soup (lit "div") (WithId (lit "cc-comicbody")) = Some comic_div →
  find comic_div (lit "img") AnyAttrs = Some comic_img →
  attrs comic_img !! lit "src" = Some src →
  find soup (lit "div") (WithId (lit "blogarea")) = Some blog_area →
  ∃ r,
    extract_comic_data soup = Return (Some r) ∧
    image_url r = src ∧
    hover_text r = default [] (attrs comic_img !! lit "title") ∧
    (find blog_area (lit "div") (WithClass (lit "cc-newsheader")) = None →
       title r = lit "unknown") ∧
    (∀ news_header,
       find blog_area (lit "div") (WithClass (lit "cc-newsheader"))
         = Some news_header →
       (find news_header (lit "a") AnyAttrs = None → title r = lit "unknown") ∧
       (∀ title_link, find news_header (lit "a") AnyAttrs = Some title_link →
                      title r = strip (get_text title_link))) ∧
    (find blog_area (lit "div") (WithClass (lit "cc-publishtime")) = None →
       date r = lit "unknown") ∧
    (∀ publish_time_div,
       find blog_area (lit "div") (WithClass (lit "cc-publishtime"))
         = Some publish_time_div →
       date r = strip (get_text publish_time_div)).
Proof.
  intros Hdiv Himg Hsrc Hblog.
  unfold extract_comic_data, try_except. rewrite extract_body_tree.
  rewrite Hdiv. simpl. rewrite Himg. simpl. rewrite Hsrc. simpl.
  rewrite Hblog. simpl. eexists. split; [done|]. simpl.
  split_and!; try done.
  - by intros ->.
  - intros news_header ->. simpl. split; [by intros ->|by intros ? ->].
  - by intros ->.
  - by intros ? ->.
Qed.

Lemma extract_comic_data_fields_degrade_independently_witness :
  ∃ r,
    extract_comic_data headerless_page = Return (Some r) ∧
    image_url r = lit "/comics/today.png" ∧
    hover_text r = [] ∧
    title r = lit "unknown" ∧
    date r = lit "Posted March 3rd, 2024".
Proof.
  pose (img := element "img" [attr "src" "/comics/today.png"] []).
  pose (time := element "div" [attr "class" "cc-publishtime"]
          [NavigableString ([10] ++ lit "  Posted ");
           ChildTag (element "b" [] [NavigableString (lit "March 3rd, 2024")]);
           NavigableString ([32; 10])]).
  destruct (extract_comic_data_fields_degrade_independently headerless_page
              (element "div" [attr "id" "cc-comicbody"] [ChildTag img]) img
              (element "div" [attr "id" "blogarea"] [ChildTag time])
              (lit "/comics/today.png"))
    as (r & Hr & Hurl & Hhover & Htitle & _ & _ & Hdate);
    [vm_compute; reflexivity..|].
  exists r. split; [exact Hr|]. split; [exact Hurl|]. split; [exact Hhover|].
  split.
  - apply Htitle. vm_compute. reflexivity.
  - apply (Hdate time). vm_compute. reflexivity.
Defined.

(** ** More on the stages and on the pipeline *)

Lemma error_status_range (r : Response) :
  error_status r = true ↔ 400 ≤ status_code r ∧ status_code r < 600.
Proof.
  unfold error_status. rewrite andb_true_iff, N.leb_le, N.ltb_lt. done.
Qed.

(** X13. [fetch_webpage] makes one request and touches no file. A response
    with a status in 400..599 gives [None]; any other response, whatever its
    status, is parsed and the tree is returned. When the request or the
    parser raises, a RequestException gives [None] and an exception of
    another class is not caught: it leaves the function. So [None] is
    returned exactly for an error status and for a RequestException. *)
Theorem fetch_webpage_outcomes {node : Type} (w : World node) (url : str)
    (s : State) :
  (fetch_webpage w url s).2 =
    {| files := files s; events := events s ++ [HttpGet url] |} ∧
  (∀ r soup, requests_get w url = Return r →
        status_code r < 400 ∨ 600 ≤ status_code r →
        BeautifulSoup w (text r) = Return soup →
        (fetch_webpage w url s).1 = Return (Some soup)) ∧
  (∀ e, page_raises w url e →
        (fetch_webpage w url s).1 =
          if is_RequestException e then Return None else Raise e) ∧
  ((fetch_webpage w url s).1 = Return None ↔
     page_raises w url RequestException ∨
     ∃ r, requests_get w url = Return r ∧
          400 ≤ status_code r ∧ status_code r < 600).
Proof.
  rewrite fetch_webpage_outcome. cbn [fst snd]. split; [done|].
  assert (∀ e, page_raises w url e → fetch_result w url = request_failure e)
    as Hraises.
  { intros e. unfold page_raises, fetch_result.
    intros [->|(r & -> & -> & ->)]; done. }
  split_and!.
  - intros r soup Hr Hst Hsoup. unfold fetch_result. rewrite Hr, Hsoup.
    destruct (error_status r) eqn:He; [|done].
    apply error_status_range in He. lia.
  - intros e He. by rewrite (Hraises e He).
  - split.
    + unfold fetch_result, page_raises.
      destruct (requests_get w url) as [r|e].
      * destruct (error_status r) eqn:Hst.
        { intros _. right. exists r. by apply error_status_range in Hst. }
        destruct (BeautifulSoup w (text r)) as [soup|e] eqn:Hsoup; [done|].
        intros He. left. right. exists r. by destruct e.
      * intros He. left. left. by destruct e.
    + intros [He|(r & Hr & Hst%error_status_range)].
      * by rewrite (Hraises _ He).
      * unfold fetch_result. by rewrite Hr, Hst.
Qed.

(** X14. [download_image] makes one request, for the resolved URL, and
    touches no file. It returns the body of the response unless the request
    raised a RequestException or the status lies in 400..599, in which case
    it returns [None]; an exception of another class raised by the request
    leaves the function. *)
Theorem download_image_outcomes {node : Type} (w : World node)
    (image_url : str) (s : State) :
  (download_image w image_url s).2 =
    {| files := files s;
       events := events s ++ [HttpGet (resolved_url image_url)] |} ∧
  ((download_image w image_url s).1 = Return None ↔
     requests_get w (resolved_url image_url) = Raise RequestException ∨
     ∃ r, requests_get w (resolved_url image_url) = Return r ∧
          400 ≤ status_code r ∧ status_code r < 600) ∧
  (∀ r, requests_get w (resolved_url image_url) = Return r →
        status_code r < 400 ∨ 600 ≤ status_code r →
        (download_image w image_url s).1 = Return (Some (content r))) ∧
  (∀ e, requests_get w (resolved_url image_url) = Raise e →
        e ≠ RequestException →
        (download_image w image_url s).1 = Raise e).
Proof.
  rewrite download_image_outcome. cbn [fst snd]. split; [done|].
  unfold download_result, request_failure.
  destruct (requests_get w (resolved_url image_url)) as [r|e].
  - destruct (error_status r) eqn:Hst.
    + apply error_status_range in Hst. split_and!; [|by intros ? [= <-] ?; lia|done].
      split; [|done]. intros _. right. by exists r.
    + split_and!; [|by intros ? [= <-] _|done].
      split; [done|]. intros [?|(r' & [= <-] & Hr)]; [done|].
      apply error_status_range in Hr. congruence.
  - split_and!; [|done|].
    + destruct e; simpl; split; try done; try (by intros _; left);
        intros [[= ?]|(? & ? & _)]; done.
    + intros e' [= <-] He. by destruct e.
Qed.

(** X15. [save_image] returns [True] exactly when the write went through,
    and then the file holds the image bytes; it never changes another file,
    and when the file cannot be opened it changes none. When the write
    raises, an IOError (or an exception of a subclass) is turned into
    [False]; an exception of another class leaves the function. *)
Theorem save_image_outcomes {node : Type} (w : World node)
    (image_data : list Byte.byte) (filepath : str) (s : State) :
  let run := save_image w image_data filepath s in
  (run.1 = Return true ↔ io_outcome w filepath = WriteOk) ∧
  (run.1 = Return true → files run.2 !! filepath = Some (Binary image_data)) ∧
  (∀ p, p ≠ filepath → files run.2 !! p = files s !! p) ∧
  (∀ e, io_outcome w filepath = OpenRaises e → files run.2 = files s) ∧
  (∀ e, raised_by (io_outcome w filepath) = Some e →
        run.1 = if is_IOError e then Return false else Raise e).
Proof.
  cbv zeta. rewrite save_image_outcome. cbv zeta.
  destruct (io_outcome w filepath) as [|e|n e];
    unfold put_file, add_event; cbn [fst snd files raised_by];
    split_and!; try done.
  - intros _. apply lookup_insert_eq.
  - intros p Hp. by rewrite lookup_insert_ne.
  - split; [by intros ?%write_failure_not_true|done].
  - by intros ?%write_failure_not_true.
  - by intros ? [= <-].
  - split; [by intros ?%write_failure_not_true|done].
  - by intros ?%write_failure_not_true.
  - intros p Hp. by rewrite lookup_insert_ne.
  - by intros ? [= <-].
Qed.

Section pipeline_more.
Context {node : Type} `{!HtmlTree node} (w : World node).

(** X16. [get_current_comic] returns [True] exactly when every stage went
    through: the page was fetched, a record was extracted, the image was
    downloaded, and both files could be written. *)
Theorem get_current_comic_success_iff (s : State) :
  (get_current_comic w s).1 = Return true ↔
  ∃ soup r data,
    fetched w EXPLOSM_BASE_URL = Some soup ∧
    extract_comic_data soup = Return (Some r) ∧
    downloaded w (image_url r) = Some data ∧
    io_outcome w (image_path r) = WriteOk ∧
    io_outcome w (metadata_path r) = WriteOk.
Proof.
  rewrite get_current_comic_run, fetched_of_result. cbv zeta.
  destruct (fetch_result w EXPLOSM_BASE_URL) as [[soup|]|e0]; cbn [fst];
    [|split; [done|by intros (? & ? & ? & ? & _)]..].
  destruct (extract_comic_data soup) as [[r|]|e] eqn:Hr; cbn [fst];
    [|split; [done|intros (? & ? & ? & ? & ? & _); congruence]..].
  destruct (download_result w (image_url r)) as [[data|]|e1] eqn:Hd; cbn [fst];
    [|split; [done|intros (? & ? & ? & ? & ? & Hd' & _); simplify_eq;
               apply download_result_Some in Hd'; congruence]..].
  apply download_result_Some in Hd.
  destruct (io_outcome w (image_path r)) as [|e2|n2 e2] eqn:Hi; cbn [fst];
    [|split; [by intros ?%write_failure_not_true
             |intros (? & ? & ? & ? & ? & ? & ? & _); congruence]..].
  destruct (io_outcome w (metadata_path r)) as [|e3|n3 e3] eqn:Hm; cbn [fst];
    [|split; [by intros ?%write_failure_not_true
             |intros (? & ? & ? & ? & ? & ? & ? & ?); congruence]..].
  split; [|done]. intros _. by exists soup, r, data.
Qed.

(** X17. After a run that returned [True] both files are on disk: the image
    file holds the downloaded bytes and the metadata file holds the four
    lines of the extracted record. *)
Theorem get_current_comic_success_files (s : State) :
  (get_current_comic w s).1 = Return true →
  ∃ soup r data,
    fetched w EXPLOSM_BASE_URL = Some soup ∧
    extract_comic_data soup = Return (Some r) ∧
    downloaded w (image_url r) = Some data ∧
    files (get_current_comic w s).2 !! image_path r = Some (Binary data) ∧
    files (get_current_comic w s).2 !! metadata_path r =
      Some (Text (metadata_file_text (os_platform w) r)).
Proof.
  rewrite get_current_comic_run. cbv zeta.
  destruct (fetch_result w EXPLOSM_BASE_URL) as [[soup|]|e0] eqn:Hs;
    cbn [fst]; [|done..].
  destruct (extract_comic_data soup) as [[r|]|e] eqn:Hr; cbn [fst]; [|done..].
  destruct (download_result w (image_url r)) as [[data|]|e1] eqn:Hd;
    cbn [fst]; [|done..].
  destruct (io_outcome w (image_path r)) as [|e2|n2 e2]; cbn [fst];
    [|by intros ?%write_failure_not_true..].
  destruct (io_outcome w (metadata_path r)) as [|e3|n3 e3]; cbn [fst];
    [|by intros ?%write_failure_not_true..].
  intros _. exists soup, r, data.
  split_and!;
    [by apply fetch_result_Some|done|by apply download_result_Some| |];
    unfold put_file, add_event; cbn [snd files].
  - rewrite lookup_insert_ne by (by intros ?%eq_sym%image_path_not_metadata_path).
    apply lookup_insert_eq.
  - apply lookup_insert_eq.
Qed.

(** X18. Nothing is rolled back: when the image was written and the write of
    the metadata file then raises, the image file stays on disk with the
    downloaded bytes. The run returns [False] when the exception is an
    IOError (or of a subclass); an exception of another class, such as the
    UnicodeEncodeError of a text that does not encode, leaves the run. *)
Theorem get_current_comic_keeps_image_on_metadata_failure
    (s : State) (soup : node) (r : ComicRecord) (data : list Byte.byte)
    (e : exn) :
  fetched w EXPLOSM_BASE_URL = Some soup →
  extract_comic_data soup = Return (Some r) →
  downloaded w (image_url r) = Some data →
  io_outcome w (image_path r) = WriteOk →
  raised_by (io_outcome w (metadata_path r)) = Some e →
  (get_current_comic w s).1 = (if is_IOError e then Return false else Raise e) ∧
  files (get_current_comic w s).2 !! image_path r = Some (Binary data).
Proof.
  intros Hs%fetch_result_Some Hr Hd%download_result_Some Hi Hm.
  rewrite get_current_comic_run. cbv zeta.
  rewrite Hs, Hr, Hd, Hi.
  destruct (io_outcome w (metadata_path r)) as [|e3|n3 e3]; [done|..];
    injection Hm as ->; (split; [done|]);
    unfold put_file, add_event; cbn [snd files].
  - apply lookup_insert_eq.
  - rewrite lookup_insert_ne by (by intros ?%eq_sym%image_path_not_metadata_path).
    apply lookup_insert_eq.
Qed.

(** X19. A run requests the home page first, whatever happens; it makes at
    most one more request, for the resolved image URL, and only after a
    record was extracted. *)
Theorem get_current_comic_requests (s : State) :
  ∃ l,
    requested (events (get_current_comic w s).2) =
      requested (events s) ++ EXPLOSM_BASE_URL :: l ∧
    (l = [] ∨
     ∃ soup r,
       fetched w EXPLOSM_BASE_URL = Some soup ∧
       extract_comic_data soup = Return (Some r) ∧
       l = [resolved_url (image_url r)]).
Proof.
  assert (∀ s url, requested (events (add_event s (HttpGet url)))
                   = requested (events s) ++ [url]) as Hget.
  { intros. unfold requested, add_event. cbn [events]. by rewrite omap_app. }
  assert (∀ s p, requested (events (add_event s (FileOpen p)))
                 = requested (events s)) as Hopen.
  { intros. unfold requested, add_event. cbn [events].
    rewrite omap_app. simpl. by rewrite app_nil_r. }
  assert (∀ s p d, events (put_file s p d) = events s) as Hput by done.
  rewrite get_current_comic_run. cbv zeta.
  destruct (fetch_result w EXPLOSM_BASE_URL) as [[soup|]|e0] eqn:Hs; cbn [snd];
    [|exists []; rewrite Hget; by split; [|left]..].
  apply fetch_result_Some in Hs.
  destruct (extract_comic_data soup) as [[r|]|e] eqn:Hr; cbn [snd];
    [|exists []; rewrite Hget; by split; [|left]..].
  exists [resolved_url (image_url r)].
  split; [|right; by exists soup, r].
  destruct (download_result w (image_url r)) as [[data|]|e1]; cbn [snd].
  2,3: by rewrite !Hget, <-(assoc_L (++)).
  destruct (io_outcome w (image_path r)) as [|e2|n2 e2]; cbn [snd];
    [destruct (io_outcome w (metadata_path r)) as [|e3|n3 e3]; cbn [snd]| |];
    rewrite ?Hput, ?Hopen, ?Hput, ?Hopen, !Hget, <-(assoc_L (++)); done.
Qed.

(** X20. An exception leaves [get_current_comic] in exactly these ways: the
    request for the home page or the parser raised it and it is not a
    RequestException;
    or [extract_comic_data] raised it; or the request for the image raised
    it and it is not a RequestException; or the write of the image file or,
    after the image file was written, of the metadata file raised it and it
    is not an IOError (nor of a subclass). When it comes from the extraction
    no file has been changed. *)
Theorem get_current_comic_raises_iff (s : State) (e : exn) :
  ((get_current_comic w s).1 = Raise e ↔
   (page_raises w EXPLOSM_BASE_URL e ∧ e ≠ RequestException) ∨
   ∃ soup,
     fetched w EXPLOSM_BASE_URL = Some soup ∧
     (extract_comic_data soup = Raise e ∨
      ∃ r,
        extract_comic_data soup = Return (Some r) ∧
        ((requests_get w (resolved_url (image_url r)) = Raise e ∧
          e ≠ RequestException) ∨
         ∃ data,
           downloaded w (image_url r) = Some data ∧
           is_IOError e = false ∧
           (raised_by (io_outcome w (image_path r)) = Some e ∨
            (io_outcome w (image_path r) = WriteOk ∧
             raised_by (io_outcome w (metadata_path r)) = Some e))))) ∧
  (∀ soup,
     fetched w EXPLOSM_BASE_URL = Some soup →
     extract_comic_data soup = Raise e →
     files (get_current_comic w s).2 = files s).
Proof.
  split.
  2:{ intros soup Hs%fetch_result_Some Hex.
      rewrite get_current_comic_run. cbv zeta. by rewrite Hs, Hex. }
  rewrite get_current_comic_run. cbv zeta. split.
  - intros Hrun.
    destruct (fetch_result w EXPLOSM_BASE_URL) as [[soup|]|e0] eqn:Hs;
      cbn [fst] in Hrun; [|done|].
    2:{ left. injection Hrun as ->. by apply fetch_result_Raise. }
    right. exists soup. split; [by apply fetch_result_Some|].
    destruct (extract_comic_data soup) as [[r|]|e'] eqn:Hr;
      cbn [fst] in Hrun; [|done|left; congruence].
    right. exists r. split; [done|].
    destruct (download_result w (image_url r)) as [[data|]|e1] eqn:Hd;
      cbn [fst] in Hrun; [|done|].
    2:{ left. injection Hrun as ->. by apply download_result_Raise. }
    right. exists data. split; [by apply download_result_Some|].
    destruct (io_outcome w (image_path r)) as [|e2|n2 e2];
      cbn [fst] in Hrun;
      [|apply write_failure_Raise in Hrun as [-> ?]; split; [done|by left]..].
    destruct (io_outcome w (metadata_path r)) as [|e3|n3 e3];
      cbn [fst] in Hrun; [done|..];
      apply write_failure_Raise in Hrun as [-> ?]; (split; [done|by right]).
  - intros [Hpage|(soup & Hs%fetch_result_Some & Hstage)].
    { apply fetch_result_Raise in Hpage. by rewrite Hpage. }
    rewrite Hs. destruct Hstage as [Hex|(r & Hr & Hstage)].
    { by rewrite Hex. }
    rewrite Hr. destruct Hstage as [Himg|(data & Hd%download_result_Some & He & Hw)].
    { apply download_result_Raise in Himg. by rewrite Himg. }
    rewrite Hd. destruct Hw as [Hi|[Hi Hm]].
    + destruct (io_outcome w (image_path r)) as [|e2|n2 e2]; [done|..];
        injection Hi as ->; cbn [fst]; by apply write_failure_Raise.
    + rewrite Hi.
      destruct (io_outcome w (metadata_path r)) as [|e3|n3 e3]; [done|..];
        injection Hm as ->; cbn [fst]; by apply write_failure_Raise.
Qed.

(** X21. Running the pipeline again in the same world leaves the files as the
    first run left them: the second run overwrites the same names with the
    same contents. *)
Theorem get_current_comic_rerun_same_files (s : State) :
  files (get_current_comic w (get_current_comic w s).2).2 =
  files (get_current_comic w s).2.
Proof.
  rewrite !get_current_comic_run. cbv zeta.
  destruct (fetch_result w EXPLOSM_BASE_URL) as [[soup|]|e0]; cbn [snd];
    [|done..].
  destruct (extract_comic_data soup) as [[r|]|e]; cbn [snd]; [|done..].
  destruct (download_result w (image_url r)) as [[data|]|e1]; cbn [snd];
    [|done..].
  destruct (io_outcome w (image_path r)) as [|e2|n2 e2]; cbn [snd];
    [destruct (io_outcome w (metadata_path r)) as [|e3|n3 e3]; cbn [snd]| |];
    unfold put_file, add_event; cbn [files]; try done;
    apply map_eq; intros k; rewrite !lookup_insert; by repeat case_decide.
Qed.
End pipeline_more.

Lemma get_current_comic_success_files_witness :
  ∃ soup r data,
    fetched today_world EXPLOSM_BASE_URL = Some soup ∧
    extract_comic_data soup = Return (Some r) ∧
    downloaded today_world (image_url r) = Some data ∧
    files (get_current_comic today_world initial_state).2 !! image_path r
      = Some (Binary data) ∧
    files (get_current_comic today_world initial_state).2 !! metadata_path r
      = Some (Text (metadata_file_text (os_platform today_world) r)).
Proof.
  apply (get_current_comic_success_files today_world initial_state).
  vm_compute. reflexivity.
Defined.

Lemma get_current_comic_keeps_image_on_metadata_failure_witness :
  ((get_current_comic full_disk_world initial_state).1 = Return false ∧
   files (get_current_comic full_disk_world initial_state).2
     !! image_path today_record = Some (Binary png_bytes)) ∧
  ((get_current_comic unencodable_world initial_state).1
     = Raise OtherException ∧
   files (get_current_comic unencodable_world initial_state).2
     !! image_path today_record = Some (Binary png_bytes)).
Proof.
  split.
  - apply (get_current_comic_keeps_image_on_metadata_failure full_disk_world
             initial_state today_page today_record png_bytes IOError);
      vm_compute; reflexivity.
  - apply (get_current_comic_keeps_image_on_metadata_failure unencodable_world
             initial_state today_page today_record png_bytes OtherException);
      vm_compute; reflexivity.
Defined.

Lemma get_current_comic_raises_iff_witness :
  (get_current_comic bad_host_world initial_state).1 = Raise OtherException ∧
  (get_current_comic unencodable_world initial_state).1 = Raise OtherException.
Proof.
  split.
  - apply (get_current_comic_raises_iff bad_host_world initial_state
             OtherException).
    right. exists today_page. split; [vm_compute; reflexivity|].
    right. exists today_record. split; [vm_compute; reflexivity|].
    left. split; [vm_compute; reflexivity|discriminate].
  - apply (get_current_comic_raises_iff unencodable_world initial_state
             OtherException).
    right. exists today_page. split; [vm_compute; reflexivity|].
    right. exists today_record. split; [vm_compute; reflexivity|].
    right. exists png_bytes. split; [vm_compute; reflexivity|].
    split; [reflexivity|]. right. split; vm_compute; reflexivity.
Defined.

(** X22. With BeautifulSoup trees, a run in which the requests raise nothing
    but RequestExceptions, the parser accepts every page and the writes
    raise nothing but IOErrors (or exceptions of a subclass) does not raise:
    it returns [True] or [False]. *)
Theorem get_current_comic_returns_on_trees (w : World Tag) (s : State) :
  (∀ url e, requests_get w url = Raise e → e = RequestException) →
  (∀ markup e, BeautifulSoup w markup ≠ Raise e) →
  (∀ path e, raised_by (io_outcome w path) = Some e → is_IOError e = true) →
  ∃ ok, (get_current_comic w s).1 = Return ok.
Proof.
  intros Hrequests Hparser Hwrites.
  destruct ((get_current_comic w s).1) as [ok|e] eqn:Hrun; [by exists ok|].
  exfalso. revert Hrun. rewrite get_current_comic_run. cbv zeta.
  destruct (fetch_result w EXPLOSM_BASE_URL) as [[soup|]|e0] eqn:Hs;
    cbn [fst]; [|done|].
  2:{ apply fetch_result_Raise in Hs
        as [[?%Hrequests|(? & _ & _ & ?%Hparser)] ?]; done. }
  unfold extract_comic_data, try_except. rewrite extract_body_tree.
  destruct (_ ≫= _) as [r|]; cbn [fst]; [|done].
  destruct (download_result w (image_url r)) as [[data|]|e1] eqn:Hd;
    cbn [fst]; [|done|].
  2:{ apply download_result_Raise in Hd as [?%Hrequests ?]. done. }
  assert (∀ o e', raised_by o = Some e' →
            (∀ e'', raised_by o = Some e'' → is_IOError e'' = true) →
            write_failure e' ≠ Raise e) as Hcaught.
  { intros o e' Ho Hall [-> He]%write_failure_Raise.
    apply Hall in Ho. congruence. }
  destruct (io_outcome w (image_path r)) as [|e2|n2 e2] eqn:Hi; cbn [fst].
  - destruct (io_outcome w (metadata_path r)) as [|e3|n3 e3] eqn:Hm;
      cbn [fst]; [done|..];
      apply (Hcaught (io_outcome w (metadata_path r))); rewrite ?Hm; try done;
      intros e''; rewrite <-Hm; apply Hwrites.
  - apply (Hcaught (io_outcome w (image_path r))); rewrite ?Hi; try done.
    intros e''. rewrite <-Hi. apply Hwrites.
  - apply (Hcaught (io_outcome w (image_path r))); rewrite ?Hi; try done.
    intros e''. rewrite <-Hi. apply Hwrites.
Qed.

Lemma get_current_comic_returns_on_trees_witness :
  ∃ ok, (get_current_comic full_disk_world initial_state).1 = Return ok.
Proof.
  apply (get_current_comic_returns_on_trees full_disk_world initial_state).
  - intros url e. simpl. repeat case_decide; congruence.
  - done.
  - intros path e. simpl. case_decide; [done|]. by intros [= <-].
Defined.

(** ** More on the metadata file and on the README *)

Lemma split_once_None (sep : char) (line : str) :
  sep ∉ line → split_once sep line = None.
Proof.
  induction line as [|c line IH]; intros Hl; simpl; [done|].
  apply not_elem_of_cons in Hl as [Hc Hl].
  rewrite decide_False by done. by rewrite IH.
Qed.

Lemma parse_metadata_app (before after : list str) :
  parse_metadata (before ++ after) =
  foldl (λ metadata line,
           match split_once (ord ":") line with
           | Some (key, value) => <[strip key := strip value]> metadata
           | None => metadata
           end) (parse_metadata before) after.
Proof. unfold parse_metadata. apply foldl_app. Qed.

(** X23. A line without a colon is skipped: it changes nothing in the
    metadata, wherever it stands in the file. *)
Theorem parse_metadata_skips_line_without_colon
    (before after : list str) (line : str) :
  ord ":" ∉ line →
  parse_metadata (before ++ line :: after) = parse_metadata (before ++ after).
Proof.
  intros Hline. rewrite !parse_metadata_app. simpl.
  by rewrite split_once_None.
Qed.

Lemma parse_metadata_skips_line_without_colon_witness :
  parse_metadata [lit "Date: March 3rd, 2024" ++ [10]; [10];
                  lit "Hover Text: funny" ++ [10]] =
  parse_metadata [lit "Date: March 3rd, 2024" ++ [10];
                  lit "Hover Text: funny" ++ [10]].
Proof.
  apply (parse_metadata_skips_line_without_colon
           [lit "Date: March 3rd, 2024" ++ [10]]
           [lit "Hover Text: funny" ++ [10]] [10]).
  apply (bool_decide_unpack _). vm_compute. exact I.
Defined.

(** X24. A line is split at its first colon only, and a later line replaces
    an earlier one with the same key: after a line key:value the stripped
    key maps to the stripped value, colons of the value included, and every
    other key is as the lines before left it. *)
Theorem parse_metadata_last_line_wins (lines : list str) (key value : str) :
  ord ":" ∉ key →
  parse_metadata (lines ++ [key ++ ord ":" :: value]) !! strip key
    = Some (strip value) ∧
  ∀ k, k ≠ strip key →
       parse_metadata (lines ++ [key ++ ord ":" :: value]) !! k
         = parse_metadata lines !! k.
Proof.
  intros Hkey. rewrite parse_metadata_snoc by done. split.
  - apply lookup_insert_eq.
  - intros k Hk. by rewrite lookup_insert_ne.
Qed.

Lemma parse_metadata_last_line_wins_witness :
  parse_metadata ([lit "Date: old" ++ [10]] ++
                  [lit "Date " ++ ord ":" :: lit " 12:30, March 3rd" ++ [10]])
    !! lit "Date" = Some (lit "12:30, March 3rd").
Proof.
  apply (parse_metadata_last_line_wins [lit "Date: old" ++ [10]] (lit "Date ")
           (lit " 12:30, March 3rd" ++ [10])).
  apply (bool_decide_unpack _). vm_compute. exact I.
Defined.

Lemma no_linebreak_labelled (label s : str) :
  bool_decide (no_linebreak label) = true → no_linebreak s →
  no_linebreak (label ++ s).
Proof.
  intros Hl Hs. apply no_linebreak_app; [|done].
  by apply bool_decide_eq_true in Hl.
Qed.

(** X25. When no field of the record holds a line feed or a carriage return,
    the metadata file written from it parses to exactly four entries: Title,
    Date, Hover Text and Image URL, each with its field stripped of leading
    and trailing whitespace. *)
Theorem metadata_file_parses_to_four_entries (p : platform)
    (fs : gmap str file_data) (metadata_file : str) (r : ComicRecord) :
  no_linebreak (title r) → no_linebreak (date r) →
  no_linebreak (hover_text r) → no_linebreak (image_url r) →
  read_metadata (<[metadata_file := Text (metadata_file_text p r)]> fs)
    metadata_file =
  {[ lit "Image URL" := strip (image_url r);
     lit "Hover Text" := strip (hover_text r);
     lit "Date" := strip (date r);
     lit "Title" := strip (title r) ]}.
Proof.
  intros Ht Hd Hh Hu. unfold read_metadata. rewrite lookup_insert_eq.
  unfold metadata_file_text.
  assert (concat (metadata_lines r) =
          (lit "Title: " ++ title r) ++ [10] ++
          (lit "Date: " ++ date r) ++ [10] ++
          (lit "Hover Text: " ++ hover_text r) ++ [10] ++
          (lit "Image URL: " ++ image_url r) ++ [10] ++ []) as ->.
  { unfold metadata_lines. cbn [concat]. by rewrite <-!(assoc_L (++)). }
  rewrite !read_back_line by (by apply no_linebreak_labelled).
  assert (∀ label s rest, bool_decide (no_linebreak label) = true →
            no_linebreak s →
            readlines ((label ++ s) ++ 10 :: rest)
              = (label ++ s ++ [10]) :: readlines rest) as Hline.
  { intros label s rest Hl Hs. rewrite readlines_line.
    - by rewrite <-(assoc_L (++)).
    - by apply (no_linebreak_labelled label s). }
  rewrite !Hline by done. cbn [text_encode mbind list_bind universal_newlines readlines].
  change [lit "Title: " ++ title r ++ [10];
          lit "Date: " ++ date r ++ [10];
          lit "Hover Text: " ++ hover_text r ++ [10];
          lit "Image URL: " ++ image_url r ++ [10]]
    with (((([] ++ [lit "Title" ++ ord ":" :: 32 :: title r ++ [10]])
              ++ [lit "Date" ++ ord ":" :: 32 :: date r ++ [10]])
              ++ [lit "Hover Text" ++ ord ":" :: 32 :: hover_text r ++ [10]])
              ++ [lit "Image URL" ++ ord ":" :: 32 :: image_url r ++ [10]]).
  rewrite !parse_metadata_snoc by (by apply (bool_decide_unpack _)).
  rewrite !strip_written_value.
  change (strip (lit "Title")) with (lit "Title").
  change (strip (lit "Date")) with (lit "Date").
  change (strip (lit "Hover Text")) with (lit "Hover Text").
  change (strip (lit "Image URL")) with (lit "Image URL").
  done.
Qed.

Lemma metadata_file_parses_to_four_entries_witness :
  read_metadata
    (<[lit "Today's Comic_metadata.txt" :=
         Text (metadata_file_text Windows spaced_record)]> ∅)
    (lit "Today's Comic_metadata.txt") =
  {[ lit "Image URL" := lit "//cdn.example/c/today.png";
     lit "Hover Text" := lit "funny";
     lit "Date" := lit "March 3rd, 2024";
     lit "Title" := lit "Today's Comic" ]}.
Proof.
  apply (metadata_file_parses_to_four_entries Windows ∅
           (lit "Today's Comic_metadata.txt") spaced_record);
    apply (bool_decide_unpack _); vm_compute; exact I.
Defined.

(** X26. The two programs compose: for a record without line breaks in its
    date, hover text and image URL, the README built from the metadata file
    that the scraper wrote shows the record's stripped date, never the
    directory name, and has a hover-text line exactly when the stripped
    hover text is not empty. *)
Theorem readme_of_scraped_metadata (p : platform) (fs : gmap str file_data)
    (metadata_file dir comic_title image_path : str) (r : ComicRecord) :
  no_linebreak (date r) → no_linebreak (hover_text r) →
  no_linebreak (image_url r) →
  readme_content dir comic_title image_path
    (read_metadata (<[metadata_file := Text (metadata_file_text p r)]> fs)
       metadata_file) =
  lit "# SMBC Daily" ++ [10; 10] ++
  lit "#### " ++ strip (date r) ++ [10; 10] ++
  lit "## " ++ comic_title ++ [10; 10] ++
  lit "![" ++ comic_title ++ lit "](" ++ image_path ++ lit ")" ++ [10; 10] ++
  match strip (hover_text r) with
  | [] => []
  | _ :: _ => lit "**Hover Text:** " ++ strip (hover_text r) ++ [10; 10]
  end ++
  lit "---" ++ [10; 10] ++
  lit "*This README is automatically updated with the latest SMBC comic.*" ++ [10].
Proof.
  intros Hd Hh Hu. unfold readme_content, read_metadata.
  rewrite lookup_insert_eq.
  destruct (metadata_file_lines p r Hd Hh Hu) as [title_lines ->].
  pose proof (parse_metadata_last_lines title_lines (date r) (hover_text r)
                (image_url r)) as Hparse.
  cbv zeta in Hparse. cbv zeta. set (m := parse_metadata _) in *.
  destruct Hparse as [Hdate Hhover]. rewrite Hdate, Hhover.
  destruct (strip (hover_text r)) as [|c h]; cbn [default from_option id];
    by rewrite <-?(assoc_L (++)).
Qed.

Lemma readme_of_scraped_metadata_witness :
  readme_content (lit "2024-03-03") (lit "Today's Comic")
    (lit "data/2024-03-03/Today's%20Comic.png")
    (read_metadata
       (<[lit "Today's Comic_metadata.txt" :=
            Text (metadata_file_text Posix spaced_record)]> ∅)
       (lit "Today's Comic_metadata.txt")) =
  lit "# SMBC Daily" ++ [10; 10] ++
  lit "#### March 3rd, 2024" ++ [10; 10] ++
  lit "## Today's Comic" ++ [10; 10] ++
  lit "![Today's Comic](data/2024-03-03/Today's%20Comic.png)" ++ [10; 10] ++
  lit "**Hover Text:** funny" ++ [10; 10] ++
  lit "---" ++ [10; 10] ++
  lit "*This README is automatically updated with the latest SMBC comic.*" ++ [10].
Proof.
  pose proof (readme_of_scraped_metadata Posix ∅
                (lit "Today's Comic_metadata.txt") (lit "2024-03-03")
                (lit "Today's Comic") (lit "data/2024-03-03/Today's%20Comic.png")
                spaced_record) as H.
  rewrite H; [vm_compute; reflexivity|..];
    apply (bool_decide_unpack _); vm_compute; exact I.
Defined.

(** X27. Without a metadata file the README falls back to the name of the
    date directory for the date and has no hover-text line. *)
Theorem readme_without_metadata_file (fs : gmap str file_data)
    (metadata_file dir comic_title image_path : str) :
  fs !! metadata_file = None →
  readme_content dir comic_title image_path (read_metadata fs metadata_file) =
  lit "# SMBC Daily" ++ [10; 10] ++
  lit "#### " ++ dir ++ [10; 10] ++
  lit "## " ++ comic_title ++ [10; 10] ++
  lit "![" ++ comic_title ++ lit "](" ++ image_path ++ lit ")" ++ [10; 10] ++
  lit "---" ++ [10; 10] ++
  lit "*This README is automatically updated with the latest SMBC comic.*" ++ [10].
Proof.
  intros Hfile. unfold readme_content, read_metadata. rewrite Hfile.
  rewrite !lookup_empty. cbn [default from_option id].
  by rewrite <-?(assoc_L (++)).
Qed.

Lemma readme_without_metadata_file_witness :
  readme_content (lit "2024-03-03") (lit "Today's Comic")
    (lit "data/2024-03-03/Today's%20Comic.png")
    (read_metadata ∅ (lit "data/2024-03-03/Today's Comic_metadata.txt")) =
  lit "# SMBC Daily" ++ [10; 10] ++
  lit "#### " ++ lit "2024-03-03" ++ [10; 10] ++
  lit "## " ++ lit "Today's Comic" ++ [10; 10] ++
  lit "![" ++ lit "Today's Comic" ++ lit "](" ++
  lit "data/2024-03-03/Today's%20Comic.png" ++ lit ")" ++ [10; 10] ++
  lit "---" ++ [10; 10] ++
  lit "*This README is automatically updated with the latest SMBC comic.*" ++ [10].
Proof.
  apply (readme_without_metadata_file ∅). apply lookup_empty.
Defined.

(** ** The most recent directory and the daily directory *)

Lemma str_compare_antisym (a b : str) :
  str_compare b a = CompOpp (str_compare a b).
Proof.
  revert b. induction a as [|x a IH]; intros [|y b]; simpl; try done.
  rewrite (N.compare_antisym x y). destruct (x ?= y); simpl; [apply IH|done..].
Qed.

Lemma str_le_refl (a : str) : str_le a a.
Proof.
  unfold str_le. induction a as [|x a IH]; simpl; [done|].
  by rewrite N.compare_refl.
Qed.

Lemma str_le_trans (a b c : str) : str_le a b → str_le b c → str_le a c.
Proof.
  unfold str_le. revert b c.
  induction a as [|x a IH]; intros [|y b] [|z c]; simpl; try done.
  destruct (N.compare_spec x y) as [Hxy|Hxy|Hxy]; [| |done];
    destruct (N.compare_spec y z) as [Hyz|Hyz|Hyz]; try done;
    destruct (N.compare_spec x z) as [Hxz|Hxz|Hxz]; try done; try lia.
  apply IH.
Qed.

Global Instance str_ge_total : Total (λ a b : str, str_le b a).
Proof.
  intros a b. unfold str_le. rewrite (str_compare_antisym b a).
  destruct (str_compare b a); simpl; auto.
Qed.

Global Instance str_ge_trans : Transitive (λ a b : str, str_le b a).
Proof. intros a b c Hba Hcb. by apply str_le_trans with b. Qed.

Lemma most_recent_date_greatest (isdir : str → bool) (listing : list str) :
  match most_recent_date isdir listing with
  | None => ∀ d, d ∈ listing → isdir d = false
  | Some latest =>
      latest ∈ listing ∧ isdir latest = true ∧
      ∀ d, d ∈ listing → isdir d = true → str_le d latest
  end.
Proof.
  unfold most_recent_date, sorted_reverse. cbv zeta.
  pose proof (merge_sort_Permutation (λ a b, str_le b a)
                (filter (λ d, isdir d = true) listing)) as Hperm.
  pose proof (StronglySorted_merge_sort (λ a b, str_le b a)
                (filter (λ d, isdir d = true) listing)) as Hsorted.
  destruct (merge_sort _ _) as [|latest rest]; simpl.
  - intros d Hd. destruct (isdir d) eqn:Hdir; [|done].
    assert (d ∈ filter (λ d, isdir d = true) listing) as Hin
      by by apply list_elem_of_filter.
    rewrite <-Hperm in Hin. by apply elem_of_nil in Hin.
  - assert (latest ∈ filter (λ d, isdir d = true) listing) as Hlatest
      by (rewrite <-Hperm; left).
    apply list_elem_of_filter in Hlatest as [Hdir Hin]. split_and!; [done..|].
    intros d Hd Hddir.
    assert (d ∈ latest :: rest) as Hd'
      by (rewrite Hperm; by apply list_elem_of_filter).
    apply elem_of_cons in Hd' as [->|Hd']; [apply str_le_refl|].
    apply StronglySorted_inv in Hsorted as [_ Hall].
    by eapply Forall_forall in Hall.
Qed.

(** X28. The directory chosen as the most recent one is the entry of the data
    directory that is a directory and has the greatest name in the order of
    strings; there is none exactly when the listing holds no directory. *)
Theorem most_recent_date_is_greatest_directory
    (isdir : str → bool) (listing : list str) :
  match most_recent_date isdir listing with
  | None => ∀ d, d ∈ listing → isdir d = false
  | Some latest =>
      latest ∈ listing ∧ isdir latest = true ∧
      ∀ d, d ∈ listing → isdir d = true → str_le d latest
  end.
Proof. apply most_recent_date_greatest. Qed.

Lemma digit_compare (n m : N) :
  (digit n ?= digit m) = (n mod 10 ?= m mod 10).
Proof.
  unfold digit. generalize (n mod 10) (m mod 10). intros a b.
  destruct (N.compare_spec a b);
    destruct (N.compare_spec (48 + a) (48 + b)); try done; lia.
Qed.

(** Comparing two numbers by quotient and remainder. *)
Lemma compare_by_tens (n m : N) (c : comparison) :
  match n / 10 ?= m / 10 with
  | Eq => match n mod 10 ?= m mod 10 with Eq => c | c' => c' end
  | c' => c'
  end = match n ?= m with Eq => c | c' => c' end.
Proof.
  pose proof (N.div_mod n 10 ltac:(done)) as Hn.
  pose proof (N.div_mod m 10 ltac:(done)) as Hm.
  pose proof (N.mod_lt n 10 ltac:(done)) as Hnr.
  pose proof (N.mod_lt m 10 ltac:(done)) as Hmr.
  revert Hn Hm Hnr Hmr. generalize (n / 10) (n mod 10) (m / 10) (m mod 10).
  intros qn rn qm rm Hn Hm Hnr Hmr.
  destruct (N.compare_spec qn qm); destruct (N.compare_spec rn rm);
    destruct (N.compare_spec n m); try done; lia.
Qed.

Lemma div_ten_bound (n bound : N) : n < 10 * bound → n / 10 < bound.
Proof.
  pose proof (N.div_mod n 10 ltac:(done)) as Hn.
  revert Hn. generalize (n / 10) (n mod 10). intros q r Hn Hb. lia.
Qed.

Lemma zero_padded_compare (width : nat) (n m : N) (r1 r2 : str) :
  n < 10 ^ N.of_nat width → m < 10 ^ N.of_nat width →
  str_compare (zero_padded width n ++ r1) (zero_padded width m ++ r2) =
  match n ?= m with
  | Eq => str_compare r1 r2
  | c => c
  end.
Proof.
  revert n m r1 r2. induction width as [|width IH]; intros n m r1 r2 Hn Hm.
  - simpl in *. assert (n = 0) as -> by lia. by assert (m = 0) as -> by lia.
  - rewrite Nat2N.inj_succ, N.pow_succ_r' in Hn, Hm. cbn [zero_padded].
    rewrite <-!(assoc_L (++)).
    rewrite IH by (by apply div_ten_bound).
    cbn [app str_compare]. rewrite digit_compare. apply compare_by_tens.
Qed.

Lemma strftime_Ymd_compare (a b : Day) :
  four_digit_year a → four_digit_year b →
  str_compare (strftime_Ymd a) (strftime_Ymd b) = day_compare a b.
Proof.
  intros (? & ? & ? & ? & ? & ?) (? & ? & ? & ? & ? & ?).
  unfold strftime_Ymd, day_compare.
  rewrite zero_padded_compare by (simpl; lia).
  destruct (year a ?= year b); [|done..].
  change (lit "-") with [45]. cbn [app str_compare].
  rewrite N.compare_refl, zero_padded_compare by (simpl; lia).
  destruct (month a ?= month b); [|done..].
  cbn [app str_compare]. rewrite N.compare_refl.
  rewrite <-(app_nil_r (zero_padded 2 (day a))).
  rewrite <-(app_nil_r (zero_padded 2 (day b))).
  rewrite zero_padded_compare by (simpl; lia).
  by destruct (day a ?= day b).
Qed.

(** X29. Directory names made by the scraper sort as the calendar does: among
    date directories named by [strftime_Ymd] for days with a four-digit
    year, the one chosen as the most recent is the one of the latest day. *)
Theorem most_recent_date_is_latest_day (days : list Day) (isdir : str → bool) :
  Forall four_digit_year days →
  (∀ d, d ∈ days → isdir (strftime_Ymd d) = true) →
  days ≠ [] →
  ∃ latest,
    latest ∈ days ∧
    most_recent_date isdir (strftime_Ymd <$> days) = Some (strftime_Ymd latest) ∧
    ∀ d, d ∈ days → day_compare d latest ≠ Gt.
Proof.
  intros Hvalid Hdirs Hne.
  pose proof (most_recent_date_greatest isdir (strftime_Ymd <$> days)) as Hmax.
  destruct (most_recent_date _ _) as [name|].
  - destruct Hmax as (Hin & _ & Hmax).
    apply list_elem_of_fmap in Hin as (latest & -> & Hlatest).
    exists latest. split_and!; [done..|]. intros d Hd.
    rewrite <-strftime_Ymd_compare by (by eapply Forall_forall in Hvalid).
    apply Hmax; [by apply list_elem_of_fmap_2|by apply Hdirs].
  - destruct days as [|d days]; [done|].
    specialize (Hmax (strftime_Ymd d)). rewrite Hdirs in Hmax by left.
    discriminate Hmax. left.
Qed.

Lemma most_recent_date_is_latest_day_witness :
  ∃ latest,
    latest ∈ [ {| year := 2024; month := 3; day := 3 |};
               {| year := 2024; month := 12; day := 1 |};
               {| year := 2023; month := 12; day := 31 |} ] ∧
    most_recent_date (λ _, true)
      [lit "2024-03-03"; lit "2024-12-01"; lit "2023-12-31"]
      = Some (strftime_Ymd latest) ∧
    ∀ d, d ∈ [ {| year := 2024; month := 3; day := 3 |};
               {| year := 2024; month := 12; day := 1 |};
               {| year := 2023; month := 12; day := 31 |} ] →
         day_compare d latest ≠ Gt.
Proof.
  apply (most_recent_date_is_latest_day
           [ {| year := 2024; month := 3; day := 3 |};
             {| year := 2024; month := 12; day := 1 |};
             {| year := 2023; month := 12; day := 31 |} ] (λ _, true)).
  - repeat constructor; simpl; lia.
  - done.
  - done.
Defined.

Lemma drop_to_sep_app (l s : str) :
  ord "/" ∉ l → drop_to_sep (l ++ ord "/" :: s) = ord "/" :: s.
Proof.
  induction l as [|c l IH]; intros Hl; cbn [app drop_to_sep].
  - by case_decide.
  - apply not_elem_of_cons in Hl as [Hc Hl].
    case_decide; [by subst|by apply IH].
Qed.

Lemma head_of_path (a f : str) :
  ord "/" ∉ f →
  reverse (drop_to_sep (reverse (a ++ ord "/" :: f))) = a ++ [ord "/"].
Proof.
  intros Hf. rewrite reverse_app, reverse_cons, <-(assoc_L (++)). simpl.
  rewrite drop_to_sep_app by (by rewrite elem_of_reverse).
  by rewrite reverse_cons, reverse_involutive.
Qed.

(** The directory of a file in a directory whose path does not end with a
    slash is that path. *)
Lemma dirname_file (a f : str) :
  ord "/" ∉ f → a ≠ [] → last a ≠ Some (ord "/") → dirname (a ++ ord "/" :: f) = a.
Proof.
  intros Hf Ha Hlast. unfold dirname. cbv zeta. rewrite head_of_path by done.
  destruct (last a) as [c|] eqn:Hc; [|by apply last_None in Hc].
  apply last_Some in Hc as [a' ->].
  assert (c ≠ ord "/") as Hne by congruence.
  rewrite decide_True.
  - rewrite reverse_snoc. simpl.
    rewrite reverse_snoc. simpl. rewrite decide_False by done.
    by rewrite reverse_cons, reverse_involutive.
  - split; [by destruct a'|]. intros Heq.
    assert (c ∈ replicate (length ((a' ++ [c]) ++ [ord "/"])) (ord "/")) as Hin.
    { rewrite <-Heq. apply elem_of_app. left. apply elem_of_app. right. left. }
    by apply elem_of_replicate in Hin as [? _].
Qed.

(** The directory of an entry of the root directory is the root directory. *)
Lemma dirname_top (d : str) : ord "/" ∉ d → dirname (ord "/" :: d) = [ord "/"].
Proof.
  intros Hd. unfold dirname. cbv zeta.
  change (ord "/" :: d) with ([] ++ ord "/" :: d).
  rewrite (head_of_path [] d) by done. cbn [app length replicate].
  case_decide as Hc; [|done]. by destruct Hc as [_ []].
Qed.

Lemma strftime_Ymd_not_absolute (now : Day) :
  startswith (strftime_Ymd now) (lit "/") = false.
Proof.
  unfold strftime_Ymd. cbn [zero_padded app]. change (lit "/") with [47].
  cbn [startswith]. unfold digit. generalize (year now / 10 / 10 / 10 mod 10).
  intros n. rewrite decide_False by lia. done.
Qed.

(** X30. On a day with a four-digit year, the days for which
    [strftime_Ymd] is what strftime prints, and for a script at root/d/f,
    where d and f are single path components and root does not end with a
    slash, [setup_daily_directory] computes the path root/archive/YYYY-MM-DD;
    for a script at /d/f this is /archive/YYYY-MM-DD. *)
Theorem daily_directory_under_project_root (root d f : str) (now : Day) :
  four_digit_year now →
  last root ≠ Some (ord "/") → d ≠ [] → ord "/" ∉ d → ord "/" ∉ f →
  daily_directory (root ++ lit "/" ++ d ++ lit "/" ++ f) now =
  root ++ lit "/archive/" ++ strftime_Ymd now.
Proof.
  intros _ Hroot Hd Hsd Hsf. unfold daily_directory, path_join. cbv zeta.
  cbn [foldl]. rewrite strftime_Ymd_not_absolute.
  change (startswith (lit "archive") (lit "/")) with false. cbv iota.
  change (lit "/") with [ord "/"].
  change (lit "/archive/") with ([ord "/"] ++ lit "archive" ++ [ord "/"]).
  assert (last (root ++ [ord "/"] ++ d) ≠ Some (ord "/")) as Hlast.
  { rewrite !last_app. destruct (last d) as [c|] eqn:Hc;
      [|by apply last_None in Hc].
    intros [= ->]. apply Hsd. apply last_Some in Hc as [d' ->].
    apply elem_of_app. right. left. }
  rewrite (assoc_L (++) root), (assoc_L (++) (root ++ [ord "/"])).
  rewrite <-(assoc_L (++) root).
  change ([ord "/"] ++ f) with (ord "/" :: f).
  rewrite dirname_file by (done || by destruct root).
  assert (∀ p : str, ¬ (p ++ lit "archive" = []
                        ∨ last (p ++ lit "archive") = Some (ord "/")))
    as Harchive.
  { intros p [Hnil|Hsep]; [by destruct p|].
    rewrite last_app in Hsep. vm_compute in Hsep. discriminate Hsep. }
  destruct root as [|c root].
  - change ([] ++ [ord "/"] ++ d) with (ord "/" :: d).
    rewrite dirname_top by done.
    destruct (decide ([ord "/"] = [] ∨ last [ord "/"] = Some (ord "/")))
      as [_|Hn]; [|by destruct Hn; right].
    rewrite decide_False by apply Harchive. by rewrite <-!(assoc_L (++)).
  - change ([ord "/"] ++ d) with (ord "/" :: d).
    rewrite dirname_file by done.
    destruct (decide (c :: root = [] ∨ last (c :: root) = Some (ord "/")))
      as [[?|?]|_]; [done..|].
    rewrite (assoc_L (++) (c :: root)).
    rewrite decide_False by apply Harchive. by rewrite <-!(assoc_L (++)).
Qed.

Lemma daily_directory_under_project_root_witness :
  strftime_Ymd {| year := 2024; month := 3; day := 3 |} = lit "2024-03-03" ∧
  daily_directory
    (lit "/home/user/smbc-daily" ++ lit "/" ++ lit "src" ++ lit "/" ++ lit "scraper.py")
    {| year := 2024; month := 3; day := 3 |} =
  lit "/home/user/smbc-daily" ++ lit "/archive/" ++
  strftime_Ymd {| year := 2024; month := 3; day := 3 |}.
Proof.
  split; [vm_compute; reflexivity|].
  apply daily_directory_under_project_root.
  - unfold four_digit_year. simpl. lia.
  - vm_compute. discriminate.
  - vm_compute. discriminate.
  - apply (bool_decide_unpack _). vm_compute. exact I.
  - apply (bool_decide_unpack _). vm_compute. exact I.
Defined.

(** The project root of a script at root/d/f. *)
Lemma project_root_of_script (root d f : str) :
  last root ≠ Some (ord "/") → d ≠ [] → ord "/" ∉ d → ord "/" ∉ f →
  dirname (dirname (root ++ lit "/" ++ d ++ lit "/" ++ f)) =
  match root with [] => lit "/" | _ :: _ => root end.
Proof.
  intros Hroot Hd Hsd Hsf. change (lit "/") with [ord "/"].
  assert (last (root ++ [ord "/"] ++ d) ≠ Some (ord "/")) as Hlast.
  { rewrite !last_app. destruct (last d) as [c|] eqn:Hc;
      [|by apply last_None in Hc].
    intros [= ->]. apply Hsd. apply last_Some in Hc as [d' ->].
    apply elem_of_app. right. left. }
  rewrite (assoc_L (++) root), (assoc_L (++) (root ++ [ord "/"])).
  rewrite <-(assoc_L (++) root).
  change ([ord "/"] ++ f) with (ord "/" :: f).
  rewrite dirname_file by (done || by destruct root).
  destruct root as [|c root].
  - change ([] ++ [ord "/"] ++ d) with (ord "/" :: d). by apply dirname_top.
  - change ([ord "/"] ++ d) with (ord "/" :: d). by apply dirname_file.
Qed.

(** X6. The README generator does not look where the scraper writes: for the
    two scripts side by side in a directory root/d, the scraper's daily
    directory is root/archive/YYYY-MM-DD, the generator scans root/data, and
    the first does not lie under the second. *)
Theorem daily_directory_outside_data_directory
    (root d scraper generator : str) (now : Day) :
  last root ≠ Some (ord "/") → d ≠ [] → ord "/" ∉ d →
  ord "/" ∉ scraper → ord "/" ∉ generator →
  data_directory (root ++ lit "/" ++ d ++ lit "/" ++ generator)
    = root ++ lit "/data" ∧
  ¬ (data_directory (root ++ lit "/" ++ d ++ lit "/" ++ generator) ++ lit "/")
      `prefix_of` daily_directory (root ++ lit "/" ++ d ++ lit "/" ++ scraper) now.
Proof.
  intros Hroot Hd Hsd Hss Hsg.
  assert (data_directory (root ++ lit "/" ++ d ++ lit "/" ++ generator)
          = root ++ lit "/data") as Hdata.
  { unfold data_directory, path_join. cbv zeta. cbn [foldl].
    rewrite project_root_of_script by done.
    change (startswith (lit "data") (lit "/")) with false. cbv iota.
    destruct root as [|c root].
    - by rewrite decide_True by (by right).
    - rewrite decide_False by (by intros [?|?]). done. }
  split; [done|]. rewrite Hdata.
  assert (daily_directory (root ++ lit "/" ++ d ++ lit "/" ++ scraper) now
          = root ++ lit "/archive/" ++ strftime_Ymd now) as ->.
  { unfold daily_directory, path_join. cbv zeta. cbn [foldl].
    rewrite project_root_of_script by done.
    rewrite strftime_Ymd_not_absolute.
    change (startswith (lit "archive") (lit "/")) with false. cbv iota.
    assert (∀ p : str, ¬ (p ++ lit "archive" = []
                          ∨ last (p ++ lit "archive") = Some (ord "/")))
      as Harchive.
    { intros p [Hnil|Hsep]; [by destruct p|].
      rewrite last_app in Hsep. vm_compute in Hsep. discriminate Hsep. }
    destruct root as [|c root].
    - destruct (decide (lit "/" = [] ∨ last (lit "/") = Some (ord "/")))
        as [_|Hn]; [|by destruct Hn; right].
      rewrite decide_False by apply Harchive. done.
    - destruct (decide (c :: root = [] ∨ last (c :: root) = Some (ord "/")))
        as [[?|?]|_]; [done..|].
      rewrite (assoc_L (++) (c :: root)).
      rewrite decide_False by apply Harchive.
      rewrite <-!(assoc_L (++)). done. }
  rewrite <-(assoc_L (++)). intros Hprefix%prefix_app_inv.
  generalize dependent (strftime_Ymd now). intros date [k Hk].
  vm_compute in Hk. discriminate Hk.
Qed.

Lemma daily_directory_outside_data_directory_witness :
  data_directory
    (lit "/home/user/smbc-daily" ++ lit "/" ++ lit "src" ++ lit "/" ++
     lit "update_readme.py") = lit "/home/user/smbc-daily" ++ lit "/data" ∧
  ¬ (data_directory
       (lit "/home/user/smbc-daily" ++ lit "/" ++ lit "src" ++ lit "/" ++
        lit "update_readme.py") ++ lit "/")
      `prefix_of`
      daily_directory
        (lit "/home/user/smbc-daily" ++ lit "/" ++ lit "src" ++ lit "/" ++
         lit "scraper.py") {| year := 2024; month := 3; day := 3 |}.
Proof.
  apply daily_directory_outside_data_directory.
  - vm_compute. discriminate.
  - vm_compute. discriminate.
  - apply (bool_decide_unpack _). vm_compute. exact I.
  - apply (bool_decide_unpack _). vm_compute. exact I.
  - apply (bool_decide_unpack _). vm_compute. exact I.
Defined.
